(** * opal-server: the git policy fetcher

    A shallow embedding of [opal_server/git_fetcher.py]: the helper class
    [RepoInterface] and the state machine [GitPolicyFetcher]
    (discover, validate, decide-to-fetch, fetch or clone, notify), together
    with the statements of its specification.

    The Python code acts on a clone directory through pygit2 and GitPython,
    reaches the network through clone and fetch, calls a user callback and
    writes to a logger.  Here the clone directory is an explicit state, the
    outcome of a network operation is an input of the call, and everything the
    code does to the outside is recorded, in order, as a list of events.
    Python exceptions are values of type [exn]; [try ... except C] is the
    combinator [try_except], which handles the listed classes only.

    The state below is what lies at the clone path; the path helpers
    ([source_id], [base_dir], [repo_clone_path]) are modelled on their own.
    Left out: the credentials class [GitCallback], whose authentication
    types are not among the sources, and
    [checkout_local_branch_from_remote], which nothing calls.  Log messages
    and exception messages are the templates of the source, not
    interpolated. *)

From stdpp Require Import base strings list option gmap.

Set Default Proof Using "Type".
Open Scope string_scope.
Open Scope list_scope.

(** ** Exceptions and results *)

(** The exception classes that the module raises or handles.  [GitError] is
    [pygit2.GitError], a direct subclass of [Exception]; [KeyError],
    [ValueError] and [RuntimeError] are the builtins.  None of the four is a
    subclass of another.  [OtherError] stands for any class outside the four,
    as a callback may raise. *)
Inductive exn_class := GitError | KeyError | ValueError | RuntimeError | OtherError.

#[global] Instance exn_class_eq_dec : EqDecision exn_class.
Proof. solve_decision. Defined.

Record exn := Exn { exn_cls : exn_class; exn_msg : string }.

#[global] Instance exn_eq_dec : EqDecision exn.
Proof. solve_decision. Defined.

Inductive result (A : Type) :=
| Ok (a : A)
| Raise (e : exn).
Arguments Ok {A} a.
Arguments Raise {A} e.

Definition is_ok {A} (r : result A) : bool :=
  match r with Ok _ => true | Raise _ => false end.

(** [except (C1, C2, ...)] handles an exception iff its class is listed. *)
Definition catches (classes : list exn_class) (e : exn) : bool :=
  bool_decide (exn_cls e ∈ classes).

(** ** Events *)

Inductive level := DEBUG | INFO | WARNING | ERROR | EXCEPTION.

Inductive event :=
| Log (lvl : level) (msg : string)
| LockAcquire
| LockRelease
| NetFetch (remote : string)
| NetClone (url : string) (checkout_branch : string)
| Rmtree
| CreateReference (name target : string)
| SetTarget (name target : string)
| OnUpdate (old_head : option string) (head : string)
| RepoCommit (rev : string)
| BuildBundle (commit : string)
| BuildDiffBundle (base commit : string).

#[global] Instance level_eq_dec : EqDecision level.
Proof. solve_decision. Defined.
#[global] Instance event_eq_dec : EqDecision event.
Proof. solve_decision. Defined.

Definition is_log (e : event) : bool :=
  match e with Log _ _ => true | _ => false end.

(** What a run did, the log lines left out. *)
Definition effects (t : list event) : list event :=
  List.filter (fun e => negb (is_log e)) t.

(** The callback invocations of a run, in order. *)
Fixpoint notifications (t : list event) : list (option string * string) :=
  match t with
  | [] => []
  | OnUpdate o n :: t' => (o, n) :: notifications t'
  | _ :: t' => notifications t'
  end.

(** ** A state, error and output monad

    A computation starts in a state [S], and ends with a value or an
    exception, a new state, and the events it emitted.  The state survives
    an exception: what was written before the [raise] stays written. *)
Definition M (S A : Type) : Type := S → result A * S * list event.

Definition ret {S A} (a : A) : M S A := λ s, (Ok a, s, []).

Definition bind {S A B} (m : M S A) (f : A → M S B) : M S B :=
  λ s, match m s with
       | (Ok a, s1, t1) => let '(r, s2, t2) := f a s1 in (r, s2, t1 ++ t2)
       | (Raise e, s1, t1) => (Raise e, s1, t1)
       end.

Definition raise {S A} (e : exn) : M S A := λ s, (Raise e, s, []).
Definition emit {S} (e : event) : M S unit := λ s, (Ok tt, s, [e]).
Definition get {S} : M S S := λ s, (Ok s, s, []).
Definition put {S} (s : S) : M S unit := λ _, (Ok tt, s, []).
Definition lift_result {S A} (r : result A) : M S A := λ s, (r, s, []).

Declare Scope fetch_scope.
Delimit Scope fetch_scope with fetch.
Notation "x <- m ;; k" := (bind m (λ x, k))
  (at level 100, m at next level, right associativity) : fetch_scope.
Notation "m ;; k" := (bind m (λ _, k))
  (at level 100, right associativity) : fetch_scope.
Open Scope fetch_scope.

(** [try: body except classes: handler]. *)
Definition try_except {S A} (body : M S A) (classes : list exn_class)
    (handler : M S A) : M S A :=
  λ s, match body s with
       | (Ok a, s1, t1) => (Ok a, s1, t1)
       | (Raise e, s1, t1) =>
           if catches classes e
           then let '(r, s2, t2) := handler s1 in (r, s2, t1 ++ t2)
           else (Raise e, s1, t1)
       end.

(** [try: body finally: cleanup], for a cleanup that cannot fail. *)
Definition finally {S A} (body : M S A) (cleanup : event) : M S A :=
  λ s, let '(r, s1, t1) := body s in (r, s1, t1 ++ [cleanup]).

Definition logger {S} (lvl : level) (msg : string) : M S unit := emit (Log lvl msg).

(** Projections of a finished run. *)
Definition outcome {S A} (x : result A * S * list event) : result A := x.1.1.
Definition final {S A} (x : result A * S * list event) : S := x.1.2.
Definition trace {S A} (x : result A * S * list event) : list event := x.2.

(** ** The repository on disk, as pygit2 shows it *)

Record Remote := { remote_name : string; remote_url : string }.

Record Repository := {
  remotes : list Remote;
  references : gmap string string;   (* full reference name to commit id *)
  odb : gset string;                 (* the commits of the object store *)
  HEAD : string                      (* the reference HEAD points to *)
}.

Definition set_references (f : gmap string string → gmap string string)
    (r : Repository) : Repository :=
  {| remotes := remotes r; references := f (references r);
     odb := odb r; HEAD := HEAD r |}.

Definition set_odb (f : gset string → gset string) (r : Repository) : Repository :=
  {| remotes := remotes r; references := references r;
     odb := f (odb r); HEAD := HEAD r |}.

(** A [pygit2.Reference] as returned by a lookup: its name and the commit it
    pointed to at that time. *)
Record Reference := { ref_name : string; ref_target : string }.

(** [repo.lookup_reference(name)], for a well-formed reference name:
    [KeyError] when there is no such reference.  (For a name that is not
    well formed pygit2 raises [InvalidSpecError], a [ValueError]; see
    [lookup_reference_strict].) *)
Definition lookup_reference (repo : Repository) (name : string) : result Reference :=
  match references repo !! name with
  | Some c => Ok {| ref_name := name; ref_target := c |}
  | None => Raise (Exn KeyError name)
  end.

(** [repo.references[name]]. *)
Definition references_getitem (repo : Repository) (name : string) : result Reference :=
  lookup_reference repo name.

(** The names libgit2 tries, in this order, for a short name. *)
Definition dwim_candidates (short : string) : list string :=
  [ short;
    "refs/" +:+ short;
    "refs/tags/" +:+ short;
    "refs/heads/" +:+ short;
    "refs/remotes/" +:+ short;
    "refs/remotes/" +:+ short +:+ "/HEAD" ].

Fixpoint first_reference (repo : Repository) (names : list string) : option Reference :=
  match names with
  | [] => None
  | n :: rest =>
      match references repo !! n with
      | Some c => Some {| ref_name := n; ref_target := c |}
      | None => first_reference repo rest
      end
  end.

(** [repo.lookup_reference_dwim(short)]. *)
Definition lookup_reference_dwim (repo : Repository) (short : string) : result Reference :=
  match first_reference repo (dwim_candidates short) with
  | Some ref => Ok ref
  | None => Raise (Exn KeyError short)
  end.

(** [repo.revparse_single(spec)], for a well-formed revision that is a
    name or a full id: a reference by its short name, or a commit of the
    object store by its id; [KeyError] when nothing is found.  (For a
    revision that is not well formed pygit2 raises [InvalidSpecError], a
    [ValueError]; see [revparse_single_strict].) *)
Definition revparse_single (repo : Repository) (spec : string) : result string :=
  match first_reference repo (dwim_candidates spec) with
  | Some ref => Ok (ref_target ref)
  | None =>
      if bool_decide (spec ∈ odb repo) then Ok spec
      else Raise (Exn KeyError spec)
  end.

(** [repo.resolve_refish(refish)], the commit of the pair it returns: the
    reference of that short name when there is one, and else whatever
    [revparse_single] finds. *)
Definition resolve_refish (repo : Repository) (refish : string) : result string :=
  match lookup_reference_dwim repo refish with
  | Ok ref => Ok (ref_target ref)
  | Raise e =>
      if catches [KeyError; ValueError] e then revparse_single repo refish
      else Raise e
  end.

(** [name in repo.branches.local], [name in repo.branches.remote] and
    [repo.branches.remote.get(name)]. *)
Definition branches_local_contains (repo : Repository) (name : string) : bool :=
  bool_decide (is_Some (references repo !! ("refs/heads/" +:+ name))).

Definition branches_remote_get (repo : Repository) (name : string) : option Reference :=
  match references repo !! ("refs/remotes/" +:+ name) with
  | Some c => Some {| ref_name := "refs/remotes/" +:+ name; ref_target := c |}
  | None => None
  end.

Definition branches_remote_contains (repo : Repository) (name : string) : bool :=
  bool_decide (is_Some (branches_remote_get repo name)).

(** [repo.create_reference(name, target)], without [force]: the reference
    must not exist yet ([AlreadyExistsError] is a [ValueError]). *)
Definition create_reference (name target : string) : M Repository Reference :=
  repo <- get ;;
  match references repo !! name with
  | Some _ => raise (Exn ValueError name)
  | None =>
      emit (CreateReference name target) ;;
      put (set_references (insert name target) repo) ;;
      ret {| ref_name := name; ref_target := target |}
  end.

(** [reference.set_target(target)]. *)
Definition set_target (ref : Reference) (target : string) : M Repository unit :=
  repo <- get ;;
  emit (SetTarget (ref_name ref) target) ;;
  put (set_references (insert (ref_name ref) target) repo).

(** [repo.remotes[name]]. *)
Definition remotes_getitem (repo : Repository) (name : string) : result Remote :=
  match List.find (λ rm, bool_decide (remote_name rm = name)) (remotes repo) with
  | Some rm => Ok rm
  | None => Raise (Exn KeyError name)
  end.

(** [repo.head.target.hex]: [GitError] while HEAD is unborn. *)
Definition head_target (repo : Repository) : result string :=
  match references repo !! HEAD repo with
  | Some c => Ok c
  | None => Raise (Exn GitError "reference 'HEAD' not found")
  end.

(** ** What is at the clone path *)

(** [_repo_path] holds nothing that git discovers, or something that pygit2
    cannot open, or a repository. *)
Inductive LocalClone :=
| Absent
| Corrupt
| Present (repo : Repository).

(** [pygit2.Repository(path)]. *)
Definition Repository_open : M LocalClone Repository :=
  d <- get ;;
  match d with
  | Present repo => ret repo
  | _ => raise (Exn GitError "Repository not found")
  end.

(** A handle [repo] stays bound to the directory it was opened from: running
    repository code through it writes the directory. *)
Definition on_repo {A} (repo : Repository) (m : M Repository A) : M LocalClone A :=
  λ _, let '(r, repo', t) := m repo in (r, Present repo', t).

(** [shutil.rmtree(path)]. *)
Definition rmtree : M LocalClone unit :=
  emit Rmtree ;; put Absent.

(** ** The network

    What the remote end answers during one call: a clone yields a repository
    or fails; a fetch yields the branch heads the remote advertises, or
    fails. *)
Record Network := {
  net_clone : string → string → result Repository;
  net_fetch : Remote → result (list (string * string))
}.

(** A successful fetch stores the advertised commits and moves the
    remote-tracking references; nothing is pruned. *)
Definition fetched (remote : string) (heads : list (string * string))
    (repo : Repository) : Repository :=
  foldr (λ '(b, c) r,
           set_odb (union {[ c ]})
             (set_references (insert ("refs/remotes/" +:+ remote +:+ "/" +:+ b) c) r))
        repo heads.

(** [remote.fetch(callbacks=...)]. *)
Definition Remote_fetch (net : Network) (remote : Remote) : M Repository unit :=
  emit (NetFetch (remote_name remote)) ;;
  heads <- lift_result (net_fetch net remote) ;;
  repo <- get ;;
  put (fetched (remote_name remote) heads repo).

(** [clone_repository(url, path, callbacks=..., checkout_branch=...)]. *)
Definition clone_repository (net : Network) (url checkout_branch : string)
    : M LocalClone Repository :=
  emit (NetClone url checkout_branch) ;;
  repo <- lift_result (net_clone net url checkout_branch) ;;
  put (Present repo) ;;
  ret repo.

(** Modelled from the spec: [opal_common.async_utils.run_sync] is not among
    the sources.  Section 5 has the blocking transport operations run on a
    worker while the caller awaits them, so the awaited call returns what
    the operation returns and raises what it raises. *)
Definition run_sync {S A} (op : M S A) : M S A := op.

(** Modelled from the spec: [opal_common.synchronization.named_lock.NamedLock]
    is not among the sources.  Section 4.2: the lock is held for the scope
    and released on every exit path, normal return or failure.  Before the
    lock is taken [_get_repo_lock] creates the locks directory with
    [makedirs(..., exist_ok=True)]; that creation is taken to succeed and is
    not recorded. *)
Definition with_lock {S A} (body : M S A) : M S A :=
  emit LockAcquire ;; finally body LockRelease.

(** ** RepoInterface *)

Module RepoInterface.

(** In the functions that write, the [repo] argument of the source is the
    state of the monad. *)
Definition create_local_branch_ref (branch_name remote_name base_branch : string)
    : M Repository Reference :=
  repo <- get ;;
  if negb (branches_local_contains repo branch_name) then
    let remote_branch := remote_name +:+ "/" +:+ branch_name in
    let base_remote_branch := remote_name +:+ "/" +:+ base_branch in
    commit <-
      (if branches_remote_contains repo remote_branch then
         lift_result (resolve_refish repo remote_branch)
       else if bool_decide (is_Some (branches_remote_get repo base_remote_branch)) then
         lift_result (resolve_refish repo base_remote_branch)
       else
         raise (Exn RuntimeError "Both branch and base branch were not found on remote")) ;;
    logger DEBUG "Created local branch '{branch_name}', pointing to: {commit.hex}" ;;
    create_reference ("refs/heads/" +:+ branch_name) commit
  else
    logger DEBUG "No need to create local branch '{branch_name}': already exists!" ;;
    lift_result (references_getitem repo ("refs/heads/" +:+ branch_name)).

(** [has_remote_branch], for any behaviour of [repo.lookup_reference]. *)
Definition has_remote_branch_with {S}
    (lookup : Repository → string → result Reference)
    (repo : Repository) (branch remote : string) : M S bool :=
  try_except
    (_ <- lift_result (lookup repo ("refs/remotes/" +:+ remote +:+ "/" +:+ branch)) ;;
     ret true)
    [KeyError]
    (ret false).

Definition has_remote_branch {S} (repo : Repository) (branch remote : string)
    : M S bool :=
  has_remote_branch_with lookup_reference repo branch remote.

Definition get_local_branch {S} (repo : Repository) (branch : string)
    : M S (option Reference) :=
  try_except
    (ref <- lift_result (lookup_reference repo ("refs/heads/" +:+ branch)) ;;
     ret (Some ref))
    [KeyError]
    (ret None).

Definition get_commit_hash {S} (repo : Repository) (branch remote : string)
    : M S (option string) :=
  try_except
    (commit <- lift_result (resolve_refish repo (remote +:+ "/" +:+ branch)) ;;
     ret (Some commit))
    [GitError; KeyError]
    (ret None).

(** The loop over [repo.remotes] returns at the first remote with the
    expected url. *)
Definition verify_found_repo_matches_remote {S} (repo : Repository)
    (expected_remote_url : string) : M S unit :=
  match List.find (λ remote, bool_decide (remote_url remote = expected_remote_url))
                  (remotes repo) with
  | Some remote =>
      logger DEBUG "found target repo url is referred by remote: {remote.name}, url={remote.url}"
  | None =>
      let error := "Repo mismatch! No remote matches target url: {expected_remote_url}, found urls: {[remote.url for remote in repo.remotes]}" in
      logger ERROR error ;;
      raise (Exn ValueError error)
  end.

End RepoInterface.

(** ** GitPolicyFetcher *)

Record GitPolicyScopeSource := {
  url : string;
  branch : string;
  directories : list string;
  extensions : option (list string);
  manifest : string;
  bundle_ignore : option (list string)
}.

(** [PolicyFetcherCallbacks]: [on_update] completes or raises. *)
Record PolicyFetcherCallbacks := {
  on_update : option string → string → result unit
}.

(** The callbacks of the base class: [on_update] is [pass]. *)
Definition default_callbacks : PolicyFetcherCallbacks :=
  {| on_update := λ _ _, Ok tt |}.

Record GitPolicyFetcher := {
  _source : GitPolicyScopeSource;
  _remote : string;
  callbacks : PolicyFetcherCallbacks
}.

(** [await self.callbacks.on_update(old_head, head)]. *)
Definition call_on_update {S} (self : GitPolicyFetcher) (old_head : option string)
    (head : string) : M S unit :=
  emit (OnUpdate old_head head) ;;
  lift_result (on_update (callbacks self) old_head head).

(** [discover_repository(str(path)) and git_path.exists()]. *)
Definition _discover_repository (d : LocalClone) : bool :=
  match d with
  | Absent => false
  | _ => true
  end.

Definition _clone (self : GitPolicyFetcher) (net : Network) : M LocalClone unit :=
  logger INFO "Cloning repo at '{url}' to '{path}'" ;;
  cloned <-
    try_except
      (repo <- run_sync (clone_repository net (url (_source self)) (branch (_source self))) ;;
       ret (Some repo))
      [GitError]
      (logger EXCEPTION "Could not clone repo at {self._source.url}, checkout branch={self._source.branch}" ;;
       ret None) ;;
  match cloned with
  | Some repo =>
      (* the [else] clause of the [try] *)
      logger INFO "Clone completed: {self._source.url}" ;;
      head <- lift_result (head_target repo) ;;
      call_on_update self None head
  | None => ret tt
  end.

Definition _get_valid_repo (self : GitPolicyFetcher) : M LocalClone (option Repository) :=
  try_except
    (repo <- Repository_open ;;
     RepoInterface.verify_found_repo_matches_remote repo (url (_source self)) ;;
     ret (Some repo))
    [GitError]
    (logger WARNING "Invalid repo at: {path}" ;;
     ret None).

(** [_should_fetch], for any behaviour of the two pygit2 operations it
    calls, [repo.lookup_reference] and [repo.revparse_single]. *)
Definition _should_fetch_with {S}
    (lookup : Repository → string → result Reference)
    (revparse : Repository → string → result string)
    (self : GitPolicyFetcher) (repo : Repository)
    (hinted_hash : option string) (force_fetch : bool) : M S bool :=
  if force_fetch then ret true
  else
    present <- RepoInterface.has_remote_branch_with lookup repo
                 (branch (_source self)) (_remote self) ;;
    if negb present then
      logger INFO "Target branch was not found in local clone, re-fetching the remote" ;;
      ret true
    else
      match hinted_hash with
      | Some hinted =>
          try_except
            (_ <- lift_result (revparse repo hinted) ;;
             ret false)
            [KeyError]
            (logger INFO "Hinted commit hash was not found in local clone, re-fetching the remote" ;;
             ret true)
      | None => ret false
      end.

(** [_should_fetch] on names and revisions that pygit2 takes as well formed,
    which is what [lookup_reference] and [revparse_single] describe. *)
Definition _should_fetch {S} (self : GitPolicyFetcher) (repo : Repository)
    (hinted_hash : option string) (force_fetch : bool) : M S bool :=
  _should_fetch_with lookup_reference revparse_single self repo hinted_hash force_fetch.

Definition _notify_on_changes (self : GitPolicyFetcher) : M Repository unit :=
  repo <- get ;;
  new_revision <-
    RepoInterface.get_commit_hash repo (branch (_source self)) (_remote self) ;;
  match new_revision with
  | None =>
      logger ERROR "Did not find target branch on remote: {self._source.branch}"
  | Some new_revision =>
      local_branch <- RepoInterface.get_local_branch repo (branch (_source self)) ;;
      found <-
        match local_branch with
        | None =>
            created <- RepoInterface.create_local_branch_ref
                         (branch (_source self)) (_remote self) (branch (_source self)) ;;
            ret (None, created)
        | Some local_branch =>
            ret (Some (ref_target local_branch), local_branch)
        end ;;
      let '(old_revision, local_branch) := found in
      call_on_update self old_revision new_revision ;;
      set_target local_branch new_revision
  end.

Definition fetch_and_notify_on_changes (self : GitPolicyFetcher) (net : Network)
    (hinted_hash : option string) (force_fetch : bool) : M LocalClone unit :=
  with_lock
    (d <- get ;;
     if _discover_repository d then
       logger DEBUG "Repo found at {path}" ;;
       repo <- _get_valid_repo self ;;
       match repo with
       | Some repo =>
           on_repo repo
             (should_fetch <- _should_fetch self repo hinted_hash force_fetch ;;
              (if should_fetch then
                 logger DEBUG "Fetching remote (force_fetch={force_fetch}): {self._remote} ({self._source.url})" ;;
                 remote <- lift_result (remotes_getitem repo (_remote self)) ;;
                 run_sync (Remote_fetch net remote) ;;
                 logger DEBUG "Fetch completed: {self._source.url}"
               else ret tt) ;;
              _notify_on_changes self)
       | None =>
           logger WARNING "Deleting invalid repo: {path}" ;;
           rmtree ;;
           _clone self net
       end
     else
       logger INFO "Repo not found at {path}" ;;
       _clone self net).

(** ** Bundles *)

(** [git.Repo(path)] of GitPython, a handle on the directory: it raises
    when git finds no repository there, and it opens a directory that pygit2
    cannot open. *)
Definition Repo_open : M LocalClone LocalClone :=
  d <- get ;;
  match d with
  | Absent => raise (Exn OtherError "InvalidGitRepositoryError")
  | _ => ret d
  end.

(** The repository behind a GitPython handle, read when the handle is used. *)
Definition Repo_worktree {S} (handle : LocalClone) : M S Repository :=
  match handle with
  | Present repo => ret repo
  | _ => raise (Exn OtherError "InvalidGitRepositoryError")
  end.

Definition is_hex_digit (a : Ascii.ascii) : bool :=
  existsb (Ascii.eqb a) (String.list_ascii_of_string "0123456789abcdefABCDEF").

(** A full object id: forty hexadecimal digits. *)
Definition is_hexsha (rev : string) : bool :=
  Nat.eqb (String.length rev) 40 && forallb is_hex_digit (String.list_ascii_of_string rev).

Definition null_hexsha : string := "0000000000000000000000000000000000000000".

(** [repo.commit(rev)] of GitPython: the commit [rev] names.  When it names
    none, a full object id gives [ValueError], except the null id, for which
    a commit is returned without any lookup; every other revision gives
    [gitdb.exc.BadName], which is not a [ValueError]. *)
Definition Repo_commit {S} (repo : Repository) (rev : string) : M S string :=
  emit (RepoCommit rev) ;;
  match revparse_single repo rev with
  | Ok c => ret c
  | Raise _ =>
      if is_hexsha rev then
        if bool_decide (rev = null_hexsha) then ret rev
        else raise (Exn ValueError "SHA could not be resolved")
      else raise (Exn OtherError "BadName")
  end.

(** The arguments [BundleMaker] is built from. *)
Record BundleMaker := {
  bm_repo : Repository;
  bm_directories : list string;
  bm_extensions : option (list string);
  bm_root_manifest_path : string;
  bm_bundle_ignore : option (list string)
}.

(** Modelled from the spec: [opal_common.git.bundle_maker.BundleMaker] is not
    among the sources.  Section 4.5 gives the consumed contract, a bundle of
    one commit and a bundle of the difference of two, scoped to the
    configured directories, extensions, manifest and ignore patterns; what
    the two operations return is left to the instance. *)
Class BundleBuilder (PolicyBundle : Type) := {
  build : BundleMaker → string → result PolicyBundle;
  build_diff : BundleMaker → string → string → result PolicyBundle
}.

(** [bundle_maker.make_bundle(commit)] and
    [bundle_maker.make_diff_bundle(old_commit, new_commit)]. *)
Definition BundleMaker_make_bundle {S} `{BundleBuilder PolicyBundle}
    (bm : BundleMaker) (commit : string) : M S PolicyBundle :=
  emit (BuildBundle commit) ;; lift_result (build bm commit).

Definition BundleMaker_make_diff_bundle {S} `{BundleBuilder PolicyBundle}
    (bm : BundleMaker) (old_commit new_commit : string) : M S PolicyBundle :=
  emit (BuildDiffBundle old_commit new_commit) ;;
  lift_result (build_diff bm old_commit new_commit).

(** Python's truth value of an optional string: [None] and the empty string
    are false. *)
Definition truthy (s : option string) : bool :=
  match s with
  | None => false
  | Some s => negb (bool_decide (s = ""))
  end.

Definition _get_current_branch_head (self : GitPolicyFetcher) : M LocalClone string :=
  repo <- Repository_open ;;
  head_commit_hash <-
    RepoInterface.get_commit_hash repo (branch (_source self)) (_remote self) ;;
  if negb (truthy head_commit_hash) then
    logger ERROR "Could not find current branch head" ;;
    raise (Exn ValueError "Could not find current branch head")
  else ret (default "" head_commit_hash).

Definition make_bundle `{BundleBuilder PolicyBundle} (self : GitPolicyFetcher)
    (base_hash : option string) : M LocalClone PolicyBundle :=
  handle <- Repo_open ;;
  head <- _get_current_branch_head self ;;
  (* the handle and the bundle maker that stores it are first used here,
     on a directory that pygit2 has just opened *)
  repo <- Repo_worktree handle ;;
  let bundle_maker :=
    {| bm_repo := repo;
       bm_directories := directories (_source self);
       bm_extensions := extensions (_source self);
       bm_root_manifest_path := manifest (_source self);
       bm_bundle_ignore := bundle_ignore (_source self) |} in
  current_head_commit <- Repo_commit repo head ;;
  if negb (truthy base_hash) then
    BundleMaker_make_bundle bundle_maker current_head_commit
  else
    try_except
      (base_commit <- Repo_commit repo (default "" base_hash) ;;
       BundleMaker_make_diff_bundle bundle_maker base_commit current_head_commit)
      [ValueError]
      (BundleMaker_make_bundle bundle_maker current_head_commit).

(** ** Repeated calls *)

(** The arguments of one [fetch_and_notify_on_changes] call, and what the
    network answers during it. *)
Record Call := {
  call_net : Network;
  call_hinted_hash : option string;
  call_force_fetch : bool
}.

(** A caller that invokes the fetcher once per entry, whatever the previous
    call returned or raised; the events of all the calls, in order. *)
Fixpoint synchronize_all (self : GitPolicyFetcher) (calls : list Call)
    (d : LocalClone) : LocalClone * list event :=
  match calls with
  | [] => (d, [])
  | c :: rest =>
      let '(_, d1, t1) :=
        fetch_and_notify_on_changes self (call_net c) (call_hinted_hash c)
          (call_force_fetch c) d in
      let '(d2, t2) := synchronize_all self rest d1 in
      (d2, t1 ++ t2)
  end.

(** ** The vocabulary of the specification *)

(** The tracking ref of the tracked branch, and the reference that records
    the branch among the remote's known branches. *)
Definition tracking_ref (self : GitPolicyFetcher) : string :=
  "refs/heads/" +:+ branch (_source self).

Definition remote_tracking_ref (self : GitPolicyFetcher) : string :=
  "refs/remotes/" +:+ _remote self +:+ "/" +:+ branch (_source self).

(** The tracked branch is among the remote's known branches. *)
Definition branch_known (self : GitPolicyFetcher) (repo : Repository) : bool :=
  bool_decide (is_Some (references repo !! remote_tracking_ref self)).

(** A commit identifier resolves in the local object store. *)
Definition resolves_locally (repo : Repository) (commit : string) : bool :=
  is_ok (revparse_single repo commit).

(** One of the configured remotes has exactly the descriptor's url. *)
Definition remote_matches (self : GitPolicyFetcher) (repo : Repository) : bool :=
  bool_decide (Exists (λ remote, remote_url remote = url (_source self)) (remotes repo)).

(** The commit the remote's tracked branch resolves to, if it resolves. *)
Definition branch_head (self : GitPolicyFetcher) (repo : Repository) : option string :=
  match resolve_refish repo (_remote self +:+ "/" +:+ branch (_source self)) with
  | Ok c => Some c
  | Raise _ => None
  end.

(** The fetch decision in the words of section 4.3, step 3b. *)
Definition fetch_decision (force branch_present : bool) (hinted_commit : option string)
    (resolvable : string → bool) : bool :=
  if force then true
  else if negb branch_present then true
  else match hinted_commit with
       | Some h => if resolvable h then false else true
       | None => false
       end.

(** The "branch not found" error. *)
Definition missing_branch : exn :=
  Exn RuntimeError "Both branch and base branch were not found on remote".

(** The mismatch error of [verify_found_repo_matches_remote]. *)
Definition repo_mismatch : exn :=
  Exn ValueError "Repo mismatch! No remote matches target url: {expected_remote_url}, found urls: {[remote.url for remote in repo.remotes]}".

Definition is_fetch (e : event) : bool :=
  match e with NetFetch _ => true | _ => false end.

Definition is_clone (e : event) : bool :=
  match e with NetClone _ _ => true | _ => false end.

(** A run that neither fetches nor clones. *)
Definition off_network (t : list event) : Prop :=
  Forall (λ e, is_fetch e = false ∧ is_clone e = false) t.

(** An event of the fetch phase: a log line or a fetch. *)
Definition log_or_fetch (e : event) : Prop := is_log e = true ∨ is_fetch e = true.

(** The repository a cycle on the valid clone [repo] hands to the change
    detection: [repo] itself when the fetch is skipped, [repo] with the
    fetched heads when the fetch succeeds.  There is none when the fetch
    raises. *)
Definition fetch_phase (self : GitPolicyFetcher) (net : Network)
    (hinted_hash : option string) (force_fetch : bool) (repo : Repository)
    : option Repository :=
  if fetch_decision force_fetch (branch_known self repo) hinted_hash
       (resolves_locally repo)
  then match remotes_getitem repo (_remote self) with
       | Ok remote =>
           match net_fetch net remote with
           | Ok heads => Some (fetched (remote_name remote) heads repo)
           | Raise _ => None
           end
       | Raise _ => None
       end
  else Some repo.

(** A call without a hint and without force. *)
Definition plain_call (c : Call) : Prop :=
  call_hinted_hash c = None ∧ call_force_fetch c = false.

(** Where there is a clone, [base_hash] names nothing in it. *)
Definition unresolvable (d : LocalClone) (base_hash : string) : Prop :=
  match d with
  | Present repo => resolves_locally repo base_hash = false
  | _ => True
  end.

(** The tracking ref as the clone directory has it. *)
Definition tracking_ref_of (self : GitPolicyFetcher) (d : LocalClone) : option string :=
  match d with
  | Present repo => references repo !! tracking_ref self
  | _ => None
  end.

(** ** Sample data *)

Definition origin_url : string := "https://git.example.com/policy.git".

Definition sample_source : GitPolicyScopeSource :=
  {| url := origin_url; branch := "main"; directories := ["."];
     extensions := None; manifest := ".manifest"; bundle_ignore := None |}.

Definition sample_fetcher : GitPolicyFetcher :=
  {| _source := sample_source; _remote := "origin"; callbacks := default_callbacks |}.

(** A fetcher whose callback always fails. *)
Definition failing_fetcher : GitPolicyFetcher :=
  {| _source := sample_source; _remote := "origin";
     callbacks := {| on_update := λ _ _, Raise (Exn OtherError "on_update failed") |} |}.

(** A clone of the sample source, tracked branch and local branch at [c1]. *)
Definition synced_repo : Repository :=
  {| remotes := [ {| remote_name := "origin"; remote_url := origin_url |} ];
     references := <[ "refs/heads/main" := "c1" ]>
                   (<[ "refs/remotes/origin/main" := "c1" ]> ∅);
     odb := {[ "c1" ]};
     HEAD := "refs/heads/main" |}.

(** The same clone after a fetch brought [c2]: the local branch is behind. *)
Definition behind_repo : Repository :=
  {| remotes := [ {| remote_name := "origin"; remote_url := origin_url |} ];
     references := <[ "refs/heads/main" := "c1" ]>
                   (<[ "refs/remotes/origin/main" := "c2" ]> ∅);
     odb := {[ "c1"; "c2" ]};
     HEAD := "refs/heads/main" |}.

(** A clone of some other repository at the same path. *)
Definition foreign_repo : Repository :=
  {| remotes := [ {| remote_name := "origin"; remote_url := "https://git.example.com/other.git" |} ];
     references := <[ "refs/heads/main" := "x1" ]>
                   (<[ "refs/remotes/origin/main" := "x1" ]> ∅);
     odb := {[ "x1" ]};
     HEAD := "refs/heads/main" |}.

(** A clone that was made for another branch: [main] has no remote-tracking
    reference and no local branch yet, and [c1] is in the object store. *)
Definition other_branch_repo : Repository :=
  {| remotes := [ {| remote_name := "origin"; remote_url := origin_url |} ];
     references := <[ "refs/heads/dev" := "c1" ]>
                   (<[ "refs/remotes/origin/dev" := "c1" ]> ∅);
     odb := {[ "c1" ]};
     HEAD := "refs/heads/dev" |}.

(** A clone in which [main] is fetched but was never synchronized: there is
    no local branch. *)
Definition unsynced_repo : Repository :=
  {| remotes := [ {| remote_name := "origin"; remote_url := origin_url |} ];
     references := <[ "refs/heads/dev" := "c0" ]>
                   (<[ "refs/remotes/origin/dev" := "c0" ]>
                   (<[ "refs/remotes/origin/main" := "c1" ]> ∅));
     odb := {[ "c0"; "c1" ]};
     HEAD := "refs/heads/dev" |}.

(** A clone in which [origin/main] names a tag only: the short name resolves,
    and the remote has no such branch. *)
Definition tag_only_repo : Repository :=
  {| remotes := [ {| remote_name := "origin"; remote_url := origin_url |} ];
     references := <[ "refs/heads/dev" := "c0" ]>
                   (<[ "refs/remotes/origin/dev" := "c0" ]>
                   (<[ "refs/tags/origin/main" := "c1" ]> ∅));
     odb := {[ "c0"; "c1" ]};
     HEAD := "refs/heads/dev" |}.

(** The remote is reachable and advertises [heads]. *)
Definition net_up (heads : list (string * string)) (cloned : Repository) : Network :=
  {| net_clone := λ _ _, Ok cloned; net_fetch := λ _, Ok heads |}.

(** The remote cannot be reached. *)
Definition net_down : Network :=
  {| net_clone := λ _ _, Raise (Exn GitError "failed to connect");
     net_fetch := λ _, Raise (Exn GitError "failed to connect") |}.

(** Bundles that only record how they were asked for. *)
Inductive SampleBundle :=
| FullBundle (commit : string)
| DiffBundle (base commit : string).

#[global] Instance sample_builder : BundleBuilder SampleBundle :=
  {| build := λ _ c, Ok (FullBundle c);
     build_diff := λ _ b c, Ok (DiffBundle b c) |}.

(** ** pygit2 on names that are not well formed

    Two of the cases in which pygit2 raises [InvalidSpecError], a subclass
    of [ValueError], where [lookup_reference] and [revparse_single] answer
    [KeyError]: a reference name with two consecutive dots, and the empty
    revision. *)
Definition dot : Ascii.ascii := Ascii.ascii_of_nat 46.

Fixpoint has_dotdot (s : string) : bool :=
  match s with
  | EmptyString => false
  | String a rest =>
      match rest with
      | EmptyString => false
      | String b _ => (Ascii.eqb a dot && Ascii.eqb b dot) || has_dotdot rest
      end
  end.

Definition lookup_reference_strict (repo : Repository) (name : string)
    : result Reference :=
  if has_dotdot name then Raise (Exn ValueError "InvalidSpecError")
  else lookup_reference repo name.

Definition revparse_single_strict (repo : Repository) (spec : string)
    : result string :=
  if bool_decide (spec = "") then Raise (Exn ValueError "InvalidSpecError")
  else revparse_single repo spec.

(** A source whose branch name is not well formed. *)
Definition dotdot_fetcher : GitPolicyFetcher :=
  {| _source := {| url := origin_url; branch := "feature..x"; directories := ["."];
                   extensions := None; manifest := ".manifest"; bundle_ignore := None |};
     _remote := "origin"; callbacks := default_callbacks |}.

(** A full object id that names nothing in the sample clones. *)
Definition unknown_hexsha : string := "0123456789abcdef0123456789abcdef01234567".

(** ** Paths and the lock *)

(** A [pathlib.Path] as the list of its components.  [path / name] appends
    [name], for a name that is one relative component, as ["git_sources"],
    [".locks"] and a hexadecimal digest are. *)
Definition path_join (path : list string) (name : string) : list string :=
  path ++ [name].

Section paths.
(** [hashlib.sha256(s.encode("utf-8")).hexdigest()]. *)
Variable sha256_hexdigest : string → string.

Definition source_id (source : GitPolicyScopeSource) : string :=
  sha256_hexdigest (url source).

Definition base_dir (base : list string) : list string :=
  path_join base "git_sources".

Definition repo_clone_path (base : list string) (source : GitPolicyScopeSource)
    : list string :=
  path_join (base_dir base) (source_id source).

(** The fields [__init__] computes from its [base_dir] and [source]
    arguments. *)
Definition init_base_dir (base : list string) : list string := base_dir base.

Definition init_repo_path (base : list string) (source : GitPolicyScopeSource)
    : list string :=
  repo_clone_path base source.

(** The file [_get_repo_lock] hands to [NamedLock]:
    [self._base_dir / ".locks" / source_id(self._source)].  Only the path:
    the creation of the locks directory is not part of this definition. *)
Definition _get_repo_lock (base : list string) (source : GitPolicyScopeSource)
    : list string :=
  let locks_dir := path_join (init_base_dir base) ".locks" in
  path_join locks_dir (source_id source).

End paths.

(** ** More vocabulary *)

Definition is_lock (e : event) : bool :=
  match e with LockAcquire | LockRelease => true | _ => false end.

Definition is_rmtree (e : event) : bool :=
  match e with Rmtree => true | _ => false end.

Definition is_notify (e : event) : bool :=
  match e with OnUpdate _ _ => true | _ => false end.

Definition is_ref_write (e : event) : bool :=
  match e with CreateReference _ _ | SetTarget _ _ => true | _ => false end.

Definition is_bundle_event (e : event) : bool :=
  match e with
  | Log _ _ | RepoCommit _ | BuildBundle _ | BuildDiffBundle _ _ => true
  | _ => false
  end.

(** What one cycle may do between taking and releasing the lock. *)
Definition cycle_event (e : event) : bool :=
  is_log e || is_fetch e || is_clone e || is_rmtree e || is_notify e || is_ref_write e.

(** The clone directory holds a repository that pygit2 opens. *)
Definition openable (d : LocalClone) : bool :=
  match d with Present _ => true | _ => false end.

(** More sample data: a clone whose only remote has the expected url under
    another name. *)
Definition upstream_repo : Repository :=
  {| remotes := [ {| remote_name := "upstream"; remote_url := origin_url |} ];
     references := <[ "refs/heads/main" := "c1" ]>
                   (<[ "refs/remotes/upstream/main" := "c1" ]> ∅);
     odb := {[ "c1" ]};
     HEAD := "refs/heads/main" |}.

(** A clone that synchronized [main] earlier and whose remote-tracking
    reference for it is gone. *)
Definition pruned_repo : Repository :=
  {| remotes := [ {| remote_name := "origin"; remote_url := origin_url |} ];
     references := <[ "refs/heads/main" := "c1" ]>
                   (<[ "refs/remotes/origin/dev" := "c1" ]> ∅);
     odb := {[ "c1" ]};
     HEAD := "refs/heads/main" |}.

(** A network on which the clone fails with an error other than
    [pygit2.GitError]. *)
Definition net_refused : Network :=
  {| net_clone := λ _ _, Raise (Exn KeyError "reference not found");
     net_fetch := λ _, Raise (Exn GitError "failed to connect") |}.

(** A bundle builder whose difference bundles fail with [ValueError]. *)
Definition no_diff_builder : BundleBuilder SampleBundle :=
  {| build := λ _ c, Ok (FullBundle c);
     build_diff := λ _ _ _, Raise (Exn ValueError "no diff") |}.

(** ** The shapes of a cycle

    What a run does, the log lines left out, as a grammar: the change
    detection, a clone, and a whole cycle between taking and releasing the
    lock. *)
Inductive notify_shape (self : GitPolicyFetcher) : list event → Prop :=
| notify_nothing :
    notify_shape self []
| notify_failed old new :
    notify_shape self [OnUpdate (Some old) new]
| notify_moved old new :
    notify_shape self [OnUpdate (Some old) new; SetTarget (tracking_ref self) new]
| notify_created_failed new :
    notify_shape self [CreateReference (tracking_ref self) new; OnUpdate None new]
| notify_created new :
    notify_shape self [CreateReference (tracking_ref self) new; OnUpdate None new;
                       SetTarget (tracking_ref self) new].

Inductive clone_shape (self : GitPolicyFetcher) : list event → Prop :=
| clone_only :
    clone_shape self [NetClone (url (_source self)) (branch (_source self))]
| clone_notified head :
    clone_shape self [NetClone (url (_source self)) (branch (_source self));
                      OnUpdate None head].

Inductive cycle_shape (self : GitPolicyFetcher) : LocalClone → list event → Prop :=
| cycle_absent t :
    clone_shape self t → cycle_shape self Absent t
| cycle_corrupt t :
    clone_shape self t → cycle_shape self Corrupt (Rmtree :: t)
| cycle_mismatch repo :
    remote_matches self repo = false → cycle_shape self (Present repo) []
| cycle_no_fetch repo t :
    remote_matches self repo = true →
    notify_shape self t → cycle_shape self (Present repo) t
| cycle_fetch repo t :
    remote_matches self repo = true →
    notify_shape self t →
    cycle_shape self (Present repo) (NetFetch (_remote self) :: t).

(** * Properties *)

(** ** Exceptions and handlers *)

Lemma catches_class classes c msg :
  catches classes (Exn c msg) = bool_decide (c ∈ classes).
Proof. reflexivity. Qed.

Lemma revparse_single_raises repo spec e :
  revparse_single repo spec = Raise e → exn_cls e = KeyError.
Proof.
  unfold revparse_single.
  destruct (first_reference _ _); [discriminate|].
  case_bool_decide; [discriminate|].
  by intros [= <-].
Qed.

Lemma resolve_refish_raises repo refish e :
  resolve_refish repo refish = Raise e → exn_cls e = KeyError.
Proof.
  unfold resolve_refish, lookup_reference_dwim.
  destruct (first_reference _ _); [discriminate|].
  rewrite catches_class. case_bool_decide.
  - apply revparse_single_raises.
  - by intros [= <-].
Qed.

(** ** What the helpers of [RepoInterface] compute *)

Section helpers.
Context {S : Type}.
Implicit Types (s : S) (repo : Repository) (self : GitPolicyFetcher).

Lemma has_remote_branch_run self repo s :
  RepoInterface.has_remote_branch repo (branch (_source self)) (_remote self) s
  = (Ok (branch_known self repo), s, []).
Proof.
  unfold RepoInterface.has_remote_branch, RepoInterface.has_remote_branch_with,
      branch_known, remote_tracking_ref,
    try_except, bind, lift_result, lookup_reference, ret.
  by destruct (references repo !! _).
Qed.

Lemma get_local_branch_run self repo s :
  RepoInterface.get_local_branch repo (branch (_source self)) s
  = (Ok (match references repo !! tracking_ref self with
         | Some c => Some {| ref_name := tracking_ref self; ref_target := c |}
         | None => None
         end), s, []).
Proof.
  unfold RepoInterface.get_local_branch, tracking_ref,
    try_except, bind, lift_result, lookup_reference, ret.
  by destruct (references repo !! _).
Qed.

Lemma get_commit_hash_run self repo s :
  RepoInterface.get_commit_hash repo (branch (_source self)) (_remote self) s
  = (Ok (branch_head self repo), s, []).
Proof.
  unfold RepoInterface.get_commit_hash, branch_head,
    try_except, bind, lift_result, ret.
  destruct (resolve_refish repo _) as [c|e] eqn:E; [done|].
  apply resolve_refish_raises in E. destruct e as [cls msg]; simpl in E; subst.
  done.
Qed.

Lemma verify_matches self repo s :
  remote_matches self repo = true →
  ∃ msg, RepoInterface.verify_found_repo_matches_remote repo (url (_source self)) s
         = (Ok tt, s, [Log DEBUG msg]).
Proof.
  unfold remote_matches, RepoInterface.verify_found_repo_matches_remote.
  intros H%bool_decide_eq_true.
  destruct (List.find _ _) as [rm|] eqn:E; [by eexists|].
  exfalso. apply Exists_exists in H as (rm & Hin & Hurl).
  apply list_elem_of_In in Hin. apply (find_none _ _ E) in Hin. by apply bool_decide_eq_false in Hin.
Qed.

Lemma verify_mismatch self repo s :
  remote_matches self repo = false →
  RepoInterface.verify_found_repo_matches_remote repo (url (_source self)) s
  = (Raise repo_mismatch, s, [Log ERROR (exn_msg repo_mismatch)]).
Proof.
  unfold remote_matches, RepoInterface.verify_found_repo_matches_remote.
  intros H%bool_decide_eq_false.
  destruct (List.find _ _) as [rm|] eqn:E; [|done].
  exfalso. apply H. apply find_some in E as [Hin Hurl].
  apply Exists_exists. exists rm. split; [by apply list_elem_of_In|].
  by apply bool_decide_eq_true in Hurl.
Qed.

End helpers.

(** ** Traces *)

Lemma effects_app t1 t2 : effects (t1 ++ t2) = effects t1 ++ effects t2.
Proof. unfold effects. apply List.filter_app. Qed.

Lemma notifications_app t1 t2 :
  notifications (t1 ++ t2) = notifications t1 ++ notifications t2.
Proof.
  induction t1 as [|e t1 IH]; [done|].
  destruct e; simpl; by rewrite ?IH.
Qed.

Lemma notifications_effects t : notifications (effects t) = notifications t.
Proof.
  induction t as [|e t IH]; [done|].
  destruct e; simpl; by rewrite ?IH.
Qed.

Lemma notifications_only_logs t : effects t = [] → notifications t = [].
Proof. intros H. by rewrite <- notifications_effects, H. Qed.

Lemma only_logs_off_network t : effects t = [] → off_network t.
Proof.
  induction t as [|e t IH]; [constructor|].
  unfold effects; simpl. destruct e; simpl; try discriminate.
  intros Ht. constructor; [done|]. by apply IH.
Qed.

Lemma only_logs_log_or_fetch t : effects t = [] → Forall log_or_fetch t.
Proof.
  induction t as [|e t IH]; [constructor|].
  unfold effects; simpl. destruct e; simpl; try discriminate.
  intros Ht. constructor; [by left|]. by apply IH.
Qed.

(** ** The fetch decision *)

Lemma should_fetch_run {S} self repo hinted_hash force_fetch (s : S) :
  ∃ logs,
    _should_fetch self repo hinted_hash force_fetch s
    = (Ok (fetch_decision force_fetch (branch_known self repo) hinted_hash
             (resolves_locally repo)), s, logs)
    ∧ effects logs = [].
Proof.
  unfold _should_fetch, _should_fetch_with, fetch_decision.
  destruct force_fetch; [by eexists|].
  pose proof (has_remote_branch_run (S := S) self repo s) as Hpresent.
  unfold RepoInterface.has_remote_branch in Hpresent.
  unfold bind at 1. rewrite Hpresent.
  destruct (branch_known self repo); simpl; [|by eexists].
  destruct hinted_hash as [h|]; [|by eexists].
  unfold resolves_locally, try_except, bind, lift_result.
  destruct (revparse_single repo h) as [c|e] eqn:E; simpl; [by eexists|].
  apply revparse_single_raises in E. destruct e as [cls msg]; simpl in E; subst.
  by eexists.
Qed.

Lemma has_remote_branch_with_run {S} lookup repo branch remote (s : S) :
  (∀ e, lookup repo ("refs/remotes/" +:+ remote +:+ "/" +:+ branch) = Raise e →
        exn_cls e = KeyError) →
  RepoInterface.has_remote_branch_with lookup repo branch remote s
  = (Ok (is_ok (lookup repo ("refs/remotes/" +:+ remote +:+ "/" +:+ branch))), s, []).
Proof.
  intros Hkey.
  unfold RepoInterface.has_remote_branch_with, try_except, bind, lift_result, ret.
  destruct (lookup repo _) as [ref|e]; [done|].
  specialize (Hkey e eq_refl). destruct e as [cls msg]; simpl in Hkey; subst. done.
Qed.




(** ** Creating the tracking ref *)

Lemma create_local_branch_ref_missing repo branch_name remote_name base_branch :
  references repo !! ("refs/heads/" +:+ branch_name) = None →
  references repo !! ("refs/remotes/" +:+ remote_name +:+ "/" +:+ branch_name) = None →
  references repo !! ("refs/remotes/" +:+ remote_name +:+ "/" +:+ base_branch) = None →
  RepoInterface.create_local_branch_ref branch_name remote_name base_branch repo
  = (Raise missing_branch, repo, []).
Proof.
  intros Hlocal Hremote Hbase.
  unfold RepoInterface.create_local_branch_ref, bind, get,
    branches_local_contains, branches_remote_contains, branches_remote_get.
  by rewrite Hlocal, Hremote, Hbase.
Qed.

Lemma create_local_branch_ref_tracked repo branch_name remote_name base_branch c commit :
  references repo !! ("refs/heads/" +:+ branch_name) = None →
  references repo !! ("refs/remotes/" +:+ remote_name +:+ "/" +:+ branch_name) = Some c →
  resolve_refish repo (remote_name +:+ "/" +:+ branch_name) = Ok commit →
  ∃ msg,
    RepoInterface.create_local_branch_ref branch_name remote_name base_branch repo
    = (Ok {| ref_name := "refs/heads/" +:+ branch_name; ref_target := commit |},
       set_references (insert ("refs/heads/" +:+ branch_name) commit) repo,
       [Log DEBUG msg; CreateReference ("refs/heads/" +:+ branch_name) commit]).
Proof.
  intros Hlocal Hremote Hresolve.
  unfold RepoInterface.create_local_branch_ref, bind, get,
    branches_local_contains, branches_remote_contains, branches_remote_get.
  rewrite Hlocal, Hremote. simpl. unfold lift_result. rewrite Hresolve.
  unfold logger, emit, create_reference, bind, get. rewrite Hlocal.
  by eexists.
Qed.

(** ** Detecting and notifying a change *)

Lemma notify_unresolved self repo :
  branch_head self repo = None →
  ∃ msg, _notify_on_changes self repo = (Ok tt, repo, [Log ERROR msg]).
Proof.
  intros Hhead. unfold _notify_on_changes, bind, get.
  rewrite get_commit_hash_run, Hhead. by eexists.
Qed.

Lemma notify_tracked self repo old_revision new_revision :
  branch_head self repo = Some new_revision →
  references repo !! tracking_ref self = Some old_revision →
  _notify_on_changes self repo
  = match on_update (callbacks self) (Some old_revision) new_revision with
    | Ok _ =>
        (Ok tt, set_references (insert (tracking_ref self) new_revision) repo,
         [OnUpdate (Some old_revision) new_revision;
          SetTarget (tracking_ref self) new_revision])
    | Raise e => (Raise e, repo, [OnUpdate (Some old_revision) new_revision])
    end.
Proof.
  intros Hhead Hlocal. unfold _notify_on_changes, bind, get.
  rewrite get_commit_hash_run, Hhead, get_local_branch_run, Hlocal.
  unfold ret, call_on_update, bind, emit, lift_result.
  by destruct (on_update _ _ _) as [[]|e].
Qed.

Lemma notify_missing_branch self repo new_revision :
  branch_head self repo = Some new_revision →
  references repo !! tracking_ref self = None →
  references repo !! remote_tracking_ref self = None →
  _notify_on_changes self repo = (Raise missing_branch, repo, []).
Proof.
  intros Hhead Hlocal Hremote. unfold _notify_on_changes, bind, get.
  rewrite get_commit_hash_run, Hhead, get_local_branch_run, Hlocal.
  by rewrite create_local_branch_ref_missing.
Qed.

Lemma notify_first_sync self repo c new_revision :
  branch_head self repo = Some new_revision →
  references repo !! tracking_ref self = None →
  references repo !! remote_tracking_ref self = Some c →
  ∃ msg,
    _notify_on_changes self repo
    = match on_update (callbacks self) None new_revision with
      | Ok _ =>
          (Ok tt, set_references (insert (tracking_ref self) new_revision) repo,
           [Log DEBUG msg; CreateReference (tracking_ref self) new_revision;
            OnUpdate None new_revision; SetTarget (tracking_ref self) new_revision])
      | Raise e =>
          (Raise e, set_references (insert (tracking_ref self) new_revision) repo,
           [Log DEBUG msg; CreateReference (tracking_ref self) new_revision;
            OnUpdate None new_revision])
      end.
Proof.
  intros Hhead Hlocal Hremote.
  assert (resolve_refish repo (_remote self +:+ "/" +:+ branch (_source self))
          = Ok new_revision) as Hresolve.
  { unfold branch_head in Hhead. destruct (resolve_refish _ _); by inversion Hhead. }
  destruct (create_local_branch_ref_tracked repo (branch (_source self)) (_remote self)
              (branch (_source self)) c new_revision Hlocal Hremote Hresolve)
    as [msg Hcreate].
  exists msg. unfold _notify_on_changes, bind, get.
  rewrite get_commit_hash_run, Hhead, get_local_branch_run, Hlocal, Hcreate.
  unfold ret, call_on_update, bind, emit, lift_result, set_target, bind, get, put, emit.
  simpl.
  destruct (on_update _ _ _) as [[]|e]; [|done].
  simpl. unfold set_references; simpl. by rewrite insert_insert_eq.
Qed.

(** ** One synchronize cycle, case by case *)

Ltac unfold_cycle :=
  unfold fetch_and_notify_on_changes, with_lock, finally, _get_valid_repo,
    try_except, Repository_open, on_repo, rmtree, logger, run_sync,
    bind, get, put, emit, ret, raise; simpl.

Lemma synchronize_mismatch self net hinted_hash force_fetch repo :
  remote_matches self repo = false →
  ∃ msg,
    fetch_and_notify_on_changes self net hinted_hash force_fetch (Present repo)
    = (Raise repo_mismatch, Present repo,
       [LockAcquire; Log DEBUG msg; Log ERROR (exn_msg repo_mismatch); LockRelease]).
Proof.
  intros Hmis. unfold_cycle.
  rewrite (verify_mismatch self repo (Present repo) Hmis). simpl.
  by eexists.
Qed.

Lemma synchronize_skip_fetch self net hinted_hash force_fetch repo :
  remote_matches self repo = true →
  fetch_decision force_fetch (branch_known self repo) hinted_hash
    (resolves_locally repo) = false →
  ∃ pre,
    effects pre = [] ∧
    fetch_and_notify_on_changes self net hinted_hash force_fetch (Present repo)
    = (outcome (_notify_on_changes self repo),
       Present (final (_notify_on_changes self repo)),
       LockAcquire :: pre ++ trace (_notify_on_changes self repo) ++ [LockRelease]).
Proof.
  intros Hvalid Hskip.
  destruct (verify_matches self repo (Present repo) Hvalid) as [msg Hverify].
  destruct (should_fetch_run self repo hinted_hash force_fetch repo)
    as (logs & Hrun & Hlogs).
  rewrite Hskip in Hrun.
  unfold_cycle. rewrite Hverify. simpl. rewrite Hrun.
  destruct (_notify_on_changes self repo) as [[[[]|e] repo'] t]; simpl.
  - exists (Log DEBUG "Repo found at {path}" :: Log DEBUG msg :: logs).
    split; [done|]. by rewrite <- !app_assoc.
  - exists (Log DEBUG "Repo found at {path}" :: Log DEBUG msg :: logs).
    split; [done|]. by rewrite <- !app_assoc.
Qed.

Lemma synchronize_fetch_ok self net hinted_hash force_fetch repo remote heads :
  remote_matches self repo = true →
  fetch_decision force_fetch (branch_known self repo) hinted_hash
    (resolves_locally repo) = true →
  remotes_getitem repo (_remote self) = Ok remote →
  net_fetch net remote = Ok heads →
  let after := _notify_on_changes self (fetched (remote_name remote) heads repo) in
  ∃ pre post,
    effects pre = [] ∧ effects post = [] ∧
    fetch_and_notify_on_changes self net hinted_hash force_fetch (Present repo)
    = (outcome after, Present (final after),
       LockAcquire :: pre ++ NetFetch (remote_name remote) :: post
         ++ trace after ++ [LockRelease]).
Proof.
  intros Hvalid Hfetch Hremote Hnet after.
  destruct (verify_matches self repo (Present repo) Hvalid) as [msg Hverify].
  destruct (should_fetch_run self repo hinted_hash force_fetch repo)
    as (logs & Hrun & Hlogs).
  rewrite Hfetch in Hrun.
  unfold_cycle. rewrite Hverify. simpl. rewrite Hrun.
  unfold lift_result, Remote_fetch, bind, emit, get, put, lift_result.
  rewrite Hremote, Hnet. simpl. fold after.
  exists (Log DEBUG "Repo found at {path}" :: Log DEBUG msg :: logs
          ++ [Log DEBUG "Fetching remote (force_fetch={force_fetch}): {self._remote} ({self._source.url})"]),
         [Log DEBUG "Fetch completed: {self._source.url}"].
  split; [by rewrite !app_comm_cons, effects_app; simpl; rewrite Hlogs|].
  split; [done|].
  destruct after as [[[[]|e] repo'] t]; simpl;
    rewrite <- !app_assoc; simpl; reflexivity.
Qed.

Lemma synchronize_fetch_failed self net hinted_hash force_fetch repo remote e :
  remote_matches self repo = true →
  fetch_decision force_fetch (branch_known self repo) hinted_hash
    (resolves_locally repo) = true →
  remotes_getitem repo (_remote self) = Ok remote →
  net_fetch net remote = Raise e →
  ∃ pre,
    effects pre = [] ∧
    fetch_and_notify_on_changes self net hinted_hash force_fetch (Present repo)
    = (Raise e, Present repo,
       LockAcquire :: pre ++ [NetFetch (remote_name remote); LockRelease]).
Proof.
  intros Hvalid Hfetch Hremote Hnet.
  destruct (verify_matches self repo (Present repo) Hvalid) as [msg Hverify].
  destruct (should_fetch_run self repo hinted_hash force_fetch repo)
    as (logs & Hrun & Hlogs).
  rewrite Hfetch in Hrun.
  unfold_cycle. rewrite Hverify. simpl. rewrite Hrun.
  unfold lift_result, Remote_fetch, bind, emit, get, put, lift_result.
  rewrite Hremote, Hnet. simpl.
  exists (Log DEBUG "Repo found at {path}" :: Log DEBUG msg :: logs
          ++ [Log DEBUG "Fetching remote (force_fetch={force_fetch}): {self._remote} ({self._source.url})"]).
  split; [by rewrite !app_comm_cons, effects_app; simpl; rewrite Hlogs|].
  simpl. by rewrite <- !app_assoc.
Qed.

(** A fetch writes remote-tracking references only. *)
Lemma fetched_local_branch remote heads repo name :
  references (fetched remote heads repo) !! ("refs/heads/" +:+ name)
  = references repo !! ("refs/heads/" +:+ name).
Proof.
  induction heads as [|[b c] heads IH]; [done|].
  simpl. rewrite lookup_insert_ne; [done|]. discriminate.
Qed.

(** A cycle on a valid clone whose fetch phase does not raise is that phase,
    which logs and fetches and does nothing else, and then the change
    detection. *)
Lemma synchronize_valid_cycle self net hinted_hash force_fetch repo repo1 :
  remote_matches self repo = true →
  fetch_phase self net hinted_hash force_fetch repo = Some repo1 →
  ∃ pre,
    Forall log_or_fetch pre ∧
    fetch_and_notify_on_changes self net hinted_hash force_fetch (Present repo)
    = (outcome (_notify_on_changes self repo1),
       Present (final (_notify_on_changes self repo1)),
       LockAcquire :: pre ++ trace (_notify_on_changes self repo1) ++ [LockRelease]).
Proof.
  intros Hvalid Hphase. unfold fetch_phase in Hphase.
  pose proof only_logs_log_or_fetch as Hlog.
  destruct (fetch_decision _ _ _ _) eqn:Hdec.
  - destruct (remotes_getitem _ _) as [remote|] eqn:Hremote; [|discriminate].
    destruct (net_fetch _ _) as [heads|] eqn:Hnet; [|discriminate].
    injection Hphase as <-.
    destruct (synchronize_fetch_ok self net hinted_hash force_fetch repo remote heads
                Hvalid Hdec Hremote Hnet) as (pre & post & Hpre & Hpost & ->).
    exists (pre ++ NetFetch (remote_name remote) :: post). split.
    + apply Forall_app. split; [by apply Hlog|].
      constructor; [by right|by apply Hlog].
    + by rewrite <- app_assoc.
  - injection Hphase as <-.
    destruct (synchronize_skip_fetch self net hinted_hash force_fetch repo Hvalid Hdec)
      as (pre & Hpre & ->).
    exists pre. split; [by apply Hlog|done].
Qed.

Lemma notifications_log_or_fetch pre :
  Forall log_or_fetch pre → notifications pre = [].
Proof.
  induction 1 as [|e pre [He|He] _ IH]; [done|..]; by destruct e.
Qed.

(** ** Cloning *)

Lemma clone_failed self net d e :
  net_clone net (url (_source self)) (branch (_source self)) = Raise e →
  exn_cls e = GitError →
  ∃ msg1 msg2,
    _clone self net d
    = (Ok tt, d,
       [Log INFO msg1;
        NetClone (url (_source self)) (branch (_source self));
        Log EXCEPTION msg2]).
Proof.
  intros Hnet Hcls.
  unfold _clone, try_except, run_sync, clone_repository, logger, bind, emit,
    lift_result, ret.
  rewrite Hnet. destruct e as [cls msg]; simpl in Hcls; subst. simpl.
  by do 2 eexists.
Qed.

Lemma clone_ok self net d repo head :
  net_clone net (url (_source self)) (branch (_source self)) = Ok repo →
  head_target repo = Ok head →
  ∃ msg1 msg2,
    _clone self net d
    = (on_update (callbacks self) None head, Present repo,
       [Log INFO msg1;
        NetClone (url (_source self)) (branch (_source self));
        Log INFO msg2;
        OnUpdate None head]).
Proof.
  intros Hnet Hhead.
  unfold _clone, try_except, run_sync, clone_repository, logger, bind, emit,
    lift_result, ret, put, call_on_update, bind, emit, lift_result.
  rewrite Hnet. simpl. rewrite Hhead.
  destruct (on_update _ _ _) as [[]|e]; by do 2 eexists.
Qed.

Lemma synchronize_absent self net hinted_hash force_fetch :
  ∃ msg,
    fetch_and_notify_on_changes self net hinted_hash force_fetch Absent
    = (outcome (_clone self net Absent), final (_clone self net Absent),
       LockAcquire :: Log INFO msg :: trace (_clone self net Absent) ++ [LockRelease]).
Proof.
  unfold_cycle. destruct (_clone self net Absent) as [[[[]|e] d] t]; by eexists.
Qed.

(** The change detection stays off the network. *)
Lemma notify_no_network self repo :
  off_network (trace (_notify_on_changes self repo)).
Proof.
  unfold off_network.
  destruct (branch_head self repo) as [new|] eqn:Hhead.
  - destruct (references repo !! tracking_ref self) as [old|] eqn:Hlocal.
    + rewrite (notify_tracked self repo old new Hhead Hlocal).
      destruct (on_update _ _ _); by repeat constructor.
    + destruct (references repo !! remote_tracking_ref self) as [c|] eqn:Hremote.
      * destruct (notify_first_sync self repo c new Hhead Hlocal Hremote) as [msg ->].
        destruct (on_update _ _ _); by repeat constructor.
      * rewrite (notify_missing_branch self repo new Hhead Hlocal Hremote).
        constructor.
  - destruct (notify_unresolved self repo Hhead) as [msg ->]. by repeat constructor.
Qed.

(** * The statements of the specification *)

(** C1 (the code departs from the specification).  On a clone none of whose
    configured remotes has the descriptor's url, the cycle raises the
    mismatch [ValueError] of [verify_found_repo_matches_remote] to the
    caller: [_get_valid_repo] handles [pygit2.GitError] only.  The clone
    directory is left as it was; nothing is deleted and nothing is cloned. *)
Theorem mismatched_clone_raises self net hinted_hash force_fetch repo :
  remote_matches self repo = false →
  let run := fetch_and_notify_on_changes self net hinted_hash force_fetch (Present repo) in
  outcome run = Raise repo_mismatch
  ∧ final run = Present repo
  ∧ effects (trace run) = [LockAcquire; LockRelease].
Proof.
  intros Hmis run.
  destruct (synchronize_mismatch self net hinted_hash force_fetch repo Hmis) as [msg Hrun].
  subst run. by rewrite Hrun.
Qed.

(** The sample source against a clone of another repository. *)
Lemma mismatched_clone_raises_witness :
  remote_matches sample_fetcher foreign_repo = false
  ∧ let run := fetch_and_notify_on_changes sample_fetcher
                 (net_up [("main", "c1")] synced_repo) None false (Present foreign_repo) in
    outcome run = Raise repo_mismatch
    ∧ final run = Present foreign_repo
    ∧ effects (trace run) = [LockAcquire; LockRelease].
Proof.
  split; [reflexivity|].
  apply (mismatched_clone_raises sample_fetcher (net_up [("main", "c1")] synced_repo)
           None false foreign_repo).
  reflexivity.
Defined.

(** C3 (the code departs from the specification).  When the decision is to
    fetch and the fetch of the configured remote fails, the cycle raises
    that error to the caller: nothing around the fetch handles it.  The
    clone is left as it was and no notification is delivered. *)
Theorem fetch_failure_raises self net hinted_hash force_fetch repo remote e :
  remote_matches self repo = true →
  fetch_decision force_fetch (branch_known self repo) hinted_hash
    (resolves_locally repo) = true →
  remotes_getitem repo (_remote self) = Ok remote →
  net_fetch net remote = Raise e →
  let run := fetch_and_notify_on_changes self net hinted_hash force_fetch (Present repo) in
  outcome run = Raise e
  ∧ final run = Present repo
  ∧ effects (trace run) = [LockAcquire; NetFetch (remote_name remote); LockRelease].
Proof.
  intros Hvalid Hdec Hremote Hnet run.
  destruct (synchronize_fetch_failed self net hinted_hash force_fetch repo remote e
              Hvalid Hdec Hremote Hnet) as (pre & Hpre & Hrun).
  subst run. rewrite Hrun. repeat split.
  unfold trace; simpl. rewrite effects_app, Hpre. done.
Qed.

(** A forced fetch on the sample clone while the remote is down. *)
Lemma fetch_failure_raises_witness :
  let run := fetch_and_notify_on_changes sample_fetcher net_down None true
               (Present synced_repo) in
  outcome run = Raise (Exn GitError "failed to connect")
  ∧ final run = Present synced_repo
  ∧ effects (trace run) = [LockAcquire; NetFetch "origin"; LockRelease].
Proof.
  apply (fetch_failure_raises sample_fetcher net_down None true synced_repo
           {| remote_name := "origin"; remote_url := origin_url |}
           (Exn GitError "failed to connect"));
    reflexivity.
Defined.

(** C7, as stated, fails: without force and with a hinted commit that
    resolves locally, the cycle still fetches when the tracked branch is not
    among the remote's known branches, because [_should_fetch] tests the
    branch before the hint. *)
Lemma resolvable_hint_still_fetches :
  let run := fetch_and_notify_on_changes sample_fetcher
               (net_up [("dev", "c1")] synced_repo) (Some "c1") false
               (Present other_branch_repo) in
  remote_matches sample_fetcher other_branch_repo = true
  ∧ resolves_locally other_branch_repo "c1" = true
  ∧ effects (trace run) = [LockAcquire; NetFetch "origin"; LockRelease].
Proof. by vm_compute. Qed.

(** C7, amended.  For every cycle without force on a valid clone in which
    the tracked branch is among the remote's known branches, if the hinted
    commit resolves in the local object store then the cycle neither fetches
    nor clones, whatever the network would answer. *)
Theorem resolvable_hint_skips_fetch self net hinted repo :
  remote_matches self repo = true →
  branch_known self repo = true →
  resolves_locally repo hinted = true →
  let run := fetch_and_notify_on_changes self net (Some hinted) false (Present repo) in
  off_network (trace run).
Proof.
  intros Hvalid Hknown Hhint run.
  assert (fetch_decision false (branch_known self repo) (Some hinted)
            (resolves_locally repo) = false) as Hdec.
  { unfold fetch_decision. by rewrite Hknown, Hhint. }
  destruct (synchronize_skip_fetch self net (Some hinted) false repo Hvalid Hdec)
    as (pre & Hpre & Hrun).
  subst run. rewrite Hrun. unfold trace at 1; simpl.
  constructor; [done|].
  apply Forall_app. split; [by apply only_logs_off_network|].
  apply Forall_app. split; [apply notify_no_network|by repeat constructor].
Qed.

(** The sample clone, hinted with the commit it already has. *)
Lemma resolvable_hint_skips_fetch_witness :
  let run := fetch_and_notify_on_changes sample_fetcher net_down (Some "c1") false
               (Present synced_repo) in
  off_network (trace run).
Proof.
  apply (resolvable_hint_skips_fetch sample_fetcher net_down "c1" synced_repo);
    reflexivity.
Defined.




Lemma fetch_phase_local_branch self net hinted_hash force_fetch repo repo1 :
  fetch_phase self net hinted_hash force_fetch repo = Some repo1 →
  references repo1 !! tracking_ref self = references repo !! tracking_ref self.
Proof.
  unfold fetch_phase. intros Hphase.
  destruct (fetch_decision _ _ _ _); [|by injection Hphase as <-].
  destruct (remotes_getitem _ _) as [remote|]; [|discriminate].
  destruct (net_fetch _ _) as [heads|]; [|discriminate].
  injection Hphase as <-. apply fetched_local_branch.
Qed.

(** C5, as stated, fails: on the first synchronization of a branch the
    tracking ref is created, at the new revision, before the callback is
    invoked.  Here the callback raises, and the tracking ref, absent before
    the cycle, points to the new revision after it. *)
Lemma tracking_ref_set_before_failed_callback :
  let run := fetch_and_notify_on_changes failing_fetcher
               (net_up [("main", "c1")] synced_repo) None false
               (Present unsynced_repo) in
  tracking_ref_of failing_fetcher (Present unsynced_repo) = None
  ∧ outcome run = Raise (Exn OtherError "on_update failed")
  ∧ tracking_ref_of failing_fetcher (final run) = Some "c1"
  ∧ effects (trace run)
    = [LockAcquire; CreateReference "refs/heads/main" "c1"; OnUpdate None "c1";
       LockRelease].
Proof. by vm_compute. Qed.

(** C5, amended.  In every cycle on a valid clone that already has the
    tracking ref, the ref is set to the new revision only after the
    callback has completed, as the last thing the cycle does to the clone;
    if the callback raises, the error reaches the caller and the tracking
    ref keeps its previous value.  In a cycle that finds no tracking ref
    while the tracked branch is among the remote's known branches, the ref
    is created at the new revision before the callback is invoked, and it
    stays there whatever the callback does. *)
Theorem tracking_ref_moves_after_callback self net hinted_hash force_fetch
    repo repo1 new_revision :
  remote_matches self repo = true →
  fetch_phase self net hinted_hash force_fetch repo = Some repo1 →
  branch_head self repo1 = Some new_revision →
  let run := fetch_and_notify_on_changes self net hinted_hash force_fetch (Present repo) in
  (∀ old_revision,
     tracking_ref_of self (Present repo) = Some old_revision →
     ∃ pre, Forall log_or_fetch pre ∧
       match on_update (callbacks self) (Some old_revision) new_revision with
       | Ok _ =>
           outcome run = Ok tt
           ∧ tracking_ref_of self (final run) = Some new_revision
           ∧ trace run
             = LockAcquire :: pre
               ++ [OnUpdate (Some old_revision) new_revision;
                   SetTarget (tracking_ref self) new_revision; LockRelease]
       | Raise e =>
           outcome run = Raise e
           ∧ tracking_ref_of self (final run) = Some old_revision
           ∧ trace run
             = LockAcquire :: pre
               ++ [OnUpdate (Some old_revision) new_revision; LockRelease]
       end)
  ∧ (tracking_ref_of self (Present repo) = None →
     branch_known self repo1 = true →
     outcome run = on_update (callbacks self) None new_revision
     ∧ tracking_ref_of self (final run) = Some new_revision
     ∧ ∃ pre post, Forall log_or_fetch pre ∧
         trace run
         = LockAcquire :: pre
           ++ CreateReference (tracking_ref self) new_revision
              :: OnUpdate None new_revision :: post).
Proof.
  intros Hvalid Hphase Hhead run.
  destruct (synchronize_valid_cycle self net hinted_hash force_fetch repo repo1
              Hvalid Hphase) as (pre & Hpre & Hrun).
  pose proof (fetch_phase_local_branch _ _ _ _ _ _ Hphase) as Hsame.
  subst run. rewrite Hrun. clear Hrun. simpl. split.
  - intros old Hold. rewrite <- Hsame in Hold.
    rewrite (notify_tracked self repo1 old new_revision Hhead Hold).
    exists pre. split; [done|].
    destruct (on_update _ _ _) as [[]|e]; simpl.
    + repeat split. apply lookup_insert_eq.
    + by repeat split.
  - intros Hnone Hknown. rewrite <- Hsame in Hnone.
    apply bool_decide_eq_true in Hknown as [c Hc].
    destruct (notify_first_sync self repo1 c new_revision Hhead Hnone Hc) as [msg ->].
    destruct (on_update _ _ _) as [[]|e]; simpl.
    + repeat split; [apply lookup_insert_eq|].
      exists (pre ++ [Log DEBUG msg]), [SetTarget (tracking_ref self) new_revision; LockRelease].
      split; [apply Forall_app; split; [done|by repeat constructor; left]|].
      unfold trace; simpl. by rewrite <- !app_assoc.
    + repeat split; [apply lookup_insert_eq|].
      exists (pre ++ [Log DEBUG msg]), [LockRelease].
      split; [apply Forall_app; split; [done|by repeat constructor; left]|].
      unfold trace; simpl. by rewrite <- !app_assoc.
Qed.

(** The local branch one commit behind, with a failing and with a completing
    callback. *)
Lemma tracking_ref_moves_after_callback_witness :
  (let run := fetch_and_notify_on_changes failing_fetcher net_down None false
                (Present behind_repo) in
   ∃ pre, Forall log_or_fetch pre ∧
     outcome run = Raise (Exn OtherError "on_update failed")
     ∧ tracking_ref_of failing_fetcher (final run) = Some "c1"
     ∧ trace run = LockAcquire :: pre ++ [OnUpdate (Some "c1") "c2"; LockRelease])
  ∧ (let run := fetch_and_notify_on_changes sample_fetcher net_down None false
                  (Present behind_repo) in
     ∃ pre, Forall log_or_fetch pre ∧
       outcome run = Ok tt
       ∧ tracking_ref_of sample_fetcher (final run) = Some "c2"
       ∧ trace run
         = LockAcquire :: pre
           ++ [OnUpdate (Some "c1") "c2"; SetTarget "refs/heads/main" "c2"; LockRelease]).
Proof.
  split.
  - exact (proj1 (tracking_ref_moves_after_callback failing_fetcher net_down None false
                    behind_repo behind_repo "c2" eq_refl eq_refl eq_refl)
             "c1" eq_refl).
  - exact (proj1 (tracking_ref_moves_after_callback sample_fetcher net_down None false
                    behind_repo behind_repo "c2" eq_refl eq_refl eq_refl)
             "c1" eq_refl).
Defined.

(** C4, as stated, fails: the "branch not found" error is not the only
    error a cycle surfaces.  Here the tracked branch exists on the remote
    and has a tracking ref, the callback raises, and the cycle raises the
    callback's error to the caller. *)
Lemma callback_error_is_raised_too :
  let run := fetch_and_notify_on_changes failing_fetcher net_down None false
               (Present behind_repo) in
  branch_known failing_fetcher behind_repo = true
  ∧ outcome run = Raise (Exn OtherError "on_update failed")
  ∧ Exn OtherError "on_update failed" ≠ missing_branch.
Proof. by vm_compute. Qed.

(** C4, amended.  When a tracking ref must be created and neither the
    tracked branch nor the base branch is among the remote's branches,
    [create_local_branch_ref] raises the "branch not found" error and
    writes nothing; a cycle that has to create the tracking ref in such a
    clone raises that error to the caller, without a notification.  It is
    not the only error surfaced: an error raised by the callback reaches
    the caller as well. *)
Theorem missing_branch_is_raised self net hinted_hash force_fetch repo repo1 new_revision :
  remote_matches self repo = true →
  fetch_phase self net hinted_hash force_fetch repo = Some repo1 →
  branch_head self repo1 = Some new_revision →
  let run := fetch_and_notify_on_changes self net hinted_hash force_fetch (Present repo) in
  (∀ base_branch,
     references repo1 !! tracking_ref self = None →
     references repo1 !! remote_tracking_ref self = None →
     references repo1 !! ("refs/remotes/" +:+ _remote self +:+ "/" +:+ base_branch) = None →
     RepoInterface.create_local_branch_ref (branch (_source self)) (_remote self)
       base_branch repo1
     = (Raise missing_branch, repo1, []))
  ∧ (references repo1 !! tracking_ref self = None →
     references repo1 !! remote_tracking_ref self = None →
     outcome run = Raise missing_branch
     ∧ final run = Present repo1
     ∧ notifications (trace run) = [])
  ∧ (∀ old_revision e,
       references repo1 !! tracking_ref self = Some old_revision →
       on_update (callbacks self) (Some old_revision) new_revision = Raise e →
       outcome run = Raise e).
Proof.
  intros Hvalid Hphase Hhead run.
  destruct (synchronize_valid_cycle self net hinted_hash force_fetch repo repo1
              Hvalid Hphase) as (pre & Hpre & Hrun).
  subst run. rewrite Hrun. clear Hrun. split; [|split].
  - intros base. apply create_local_branch_ref_missing.
  - intros Hlocal Hremote.
    rewrite (notify_missing_branch self repo1 new_revision Hhead Hlocal Hremote).
    repeat split. unfold trace; simpl.
    rewrite notifications_app. simpl.
    by rewrite (notifications_log_or_fetch pre Hpre).
  - intros old e Hlocal Hcb.
    by rewrite (notify_tracked self repo1 old new_revision Hhead Hlocal), Hcb.
Qed.

(** The clone where [origin/main] is a tag only, and a failing callback on
    the clone that is one commit behind. *)
Lemma missing_branch_is_raised_witness :
  (let run := fetch_and_notify_on_changes sample_fetcher
                (net_up [("dev", "c0")] synced_repo) None false
                (Present tag_only_repo) in
   outcome run = Raise missing_branch
   ∧ final run = Present (fetched "origin" [("dev", "c0")] tag_only_repo)
   ∧ notifications (trace run) = [])
  ∧ (let run := fetch_and_notify_on_changes failing_fetcher net_down None false
                  (Present behind_repo) in
     outcome run = Raise (Exn OtherError "on_update failed")).
Proof.
  split.
  - exact (proj1 (proj2 (missing_branch_is_raised sample_fetcher
                           (net_up [("dev", "c0")] synced_repo) None false
                           tag_only_repo (fetched "origin" [("dev", "c0")] tag_only_repo)
                           "c1" eq_refl eq_refl eq_refl))
             eq_refl eq_refl).
  - exact (proj2 (proj2 (missing_branch_is_raised failing_fetcher net_down None false
                           behind_repo behind_repo "c2" eq_refl eq_refl eq_refl))
             "c1" (Exn OtherError "on_update failed") eq_refl eq_refl).
Defined.

Lemma set_references_insert_id repo name target :
  references repo !! name = Some target →
  set_references (insert name target) repo = repo.
Proof.
  intros Hlookup. destruct repo as [rs refs objs hd]; simpl in *.
  unfold set_references; simpl. by rewrite insert_id.
Qed.

(** A plain cycle on a clone whose tracking ref is at the branch head:
    the callback is invoked with that commit twice, and the clone stays as
    it is. *)
Lemma synchronize_up_to_date self net repo head :
  remote_matches self repo = true →
  branch_known self repo = true →
  branch_head self repo = Some head →
  references repo !! tracking_ref self = Some head →
  let run := fetch_and_notify_on_changes self net None false (Present repo) in
  final run = Present repo
  ∧ notifications (trace run) = [(Some head, head)]
  ∧ off_network (trace run).
Proof.
  intros Hvalid Hknown Hhead Hlocal run.
  assert (fetch_decision false (branch_known self repo) None
            (resolves_locally repo) = false) as Hdec.
  { unfold fetch_decision. by rewrite Hknown. }
  destruct (synchronize_skip_fetch self net None false repo Hvalid Hdec)
    as (pre & Hpre & Hrun).
  subst run. rewrite Hrun. clear Hrun.
  rewrite (notify_tracked self repo head head Hhead Hlocal).
  rewrite (set_references_insert_id repo _ _ Hlocal).
  assert (notifications pre = [] ∧ off_network pre) as [Hnotes Hquiet].
  { split; [by apply notifications_only_logs|by apply only_logs_off_network]. }
  destruct (on_update _ _ _) as [[]|e]; unfold final, trace; simpl.
  - repeat split.
    + by rewrite notifications_app, Hnotes.
    + constructor; [done|]. apply Forall_app. split; [done|by repeat constructor].
  - repeat split.
    + by rewrite notifications_app, Hnotes.
    + constructor; [done|]. apply Forall_app. split; [done|by repeat constructor].
Qed.

(** C2, as stated, fails: every cycle that resolves the branch head invokes
    the callback, whether or not the head differs from the tracking ref.
    Three plain calls against a remote that stays at [c1], starting without
    a clone, invoke the callback three times. *)
Lemma unchanged_head_is_notified_again :
  let call := {| call_net := net_up [("main", "c1")] synced_repo;
                 call_hinted_hash := None; call_force_fetch := false |} in
  let t := (synchronize_all sample_fetcher [call; call; call] Absent).2 in
  Forall plain_call [call; call; call]
  ∧ notifications t = [(None, "c1"); (Some "c1", "c1"); (Some "c1", "c1")]
  ∧ ¬ (length (notifications t) ≤ 1)%nat.
Proof.
  split; [by repeat constructor|].
  split; [by vm_compute|].
  vm_compute. lia.
Qed.

(** C2, amended.  Once the tracking ref of a valid clone is at the head of
    the tracked branch, every further call without hint and without force
    invokes the callback once more, with that head as both the old and the
    new revision: after the first notification for a head commit no
    further call reports a different pair of revisions.  Such calls stay
    off the network and leave the clone as it is. *)
Theorem unchanged_head_notifies_same_revision self calls repo head :
  remote_matches self repo = true →
  branch_known self repo = true →
  branch_head self repo = Some head →
  references repo !! tracking_ref self = Some head →
  Forall plain_call calls →
  let run := synchronize_all self calls (Present repo) in
  run.1 = Present repo
  ∧ notifications run.2 = replicate (length calls) (Some head, head)
  ∧ off_network run.2.
Proof.
  intros Hvalid Hknown Hhead Hlocal Hplain. simpl. unfold off_network.
  induction Hplain as [|c calls [Hhint Hforce] _ IH]; [repeat split; by constructor|].
  simpl. rewrite Hhint, Hforce.
  destruct (synchronize_up_to_date self (call_net c) repo head
              Hvalid Hknown Hhead Hlocal) as (Hfinal & Hnotes & Hquiet).
  destruct (fetch_and_notify_on_changes self (call_net c) None false (Present repo))
    as [[r d] t].
  unfold final, trace in *; simpl in *. subst d.
  destruct (synchronize_all self calls (Present repo)) as [d2 t2].
  destruct IH as (IH1 & IH2 & IH3). simpl in *.
  repeat split; [done| |].
  - by rewrite notifications_app, Hnotes, IH2.
  - by apply Forall_app.
Qed.

(** Two plain calls on the sample clone. *)
Lemma unchanged_head_notifies_same_revision_witness :
  let call := {| call_net := net_down; call_hinted_hash := None;
                 call_force_fetch := false |} in
  let run := synchronize_all sample_fetcher [call; call] (Present synced_repo) in
  run.1 = Present synced_repo
  ∧ notifications run.2 = [(Some "c1", "c1"); (Some "c1", "c1")]
  ∧ off_network run.2.
Proof.
  intros call.
  apply (unchanged_head_notifies_same_revision sample_fetcher [call; call]
           synced_repo "c1"); try reflexivity.
  by repeat constructor.
Defined.

(** ** Bundles *)

Lemma current_branch_head_run self d :
  _get_current_branch_head self d
  = match d with
    | Present repo =>
        match branch_head self repo with
        | Some head =>
            if bool_decide (head = "")
            then (Raise (Exn ValueError "Could not find current branch head"), d,
                  [Log ERROR "Could not find current branch head"])
            else (Ok head, d, [])
        | None =>
            (Raise (Exn ValueError "Could not find current branch head"), d,
             [Log ERROR "Could not find current branch head"])
        end
    | _ => (Raise (Exn GitError "Repository not found"), d, [])
    end.
Proof.
  unfold _get_current_branch_head, Repository_open, bind at 1 2, get.
  destruct d as [| |repo]; try done.
  unfold ret. unfold bind at 1. rewrite get_commit_hash_run.
  destruct (branch_head self repo) as [head|]; [|done].
  unfold truthy. simpl. by case_bool_decide.
Qed.

(** What [make_bundle] does on a clone in which the head of the tracked
    branch resolves to the commit [c], case by case. *)
Lemma make_bundle_run `{BundleBuilder PolicyBundle} self base_hash repo head c :
  branch_head self repo = Some head →
  head ≠ "" →
  revparse_single repo head = Ok c →
  let bm := {| bm_repo := repo;
               bm_directories := directories (_source self);
               bm_extensions := extensions (_source self);
               bm_root_manifest_path := manifest (_source self);
               bm_bundle_ignore := bundle_ignore (_source self) |} in
  let base := default "" base_hash in
  let full t := (build bm c, Present repo, t ++ [BuildBundle c]) in
  let diff cb :=
    match build_diff bm cb c with
    | Ok b => (Ok b, Present repo, [RepoCommit head; RepoCommit base; BuildDiffBundle cb c])
    | Raise e =>
        if bool_decide (exn_cls e = ValueError)
        then full [RepoCommit head; RepoCommit base; BuildDiffBundle cb c]
        else (Raise e, Present repo,
              [RepoCommit head; RepoCommit base; BuildDiffBundle cb c])
    end in
  make_bundle self base_hash (Present repo)
  = if negb (truthy base_hash) then full [RepoCommit head]
    else
      match revparse_single repo base with
      | Ok cb => diff cb
      | Raise _ =>
          if is_hexsha base then
            if bool_decide (base = null_hexsha) then diff base
            else full [RepoCommit head; RepoCommit base]
          else (Raise (Exn OtherError "BadName"), Present repo,
                [RepoCommit head; RepoCommit base])
      end.
Proof.
  intros Hhead Hne Hc. simpl.
  unfold make_bundle, Repo_open, Repo_worktree, try_except, bind, get, ret. simpl.
  rewrite current_branch_head_run, Hhead.
  rewrite bool_decide_eq_false_2 by done. simpl.
  unfold Repo_commit, bind, emit, ret, raise. rewrite Hc. simpl.
  unfold BundleMaker_make_bundle, BundleMaker_make_diff_bundle, bind, emit, lift_result.
  destruct (negb (truthy base_hash)); simpl; [done|].
  destruct (revparse_single repo (default "" base_hash)) as [cb|eb]; simpl.
  - destruct (build_diff _ cb c) as [b|e]; simpl; [done|].
    destruct e as [cls msg]. rewrite catches_class. simpl.
    destruct cls; by vm_compute.
  - destruct (is_hexsha (default "" base_hash)); simpl; [|done].
    case_bool_decide; simpl; [|done].
    destruct (build_diff _ _ c) as [b|e]; simpl; [done|].
    destruct e as [cls msg]. rewrite catches_class. simpl.
    destruct cls; by vm_compute.
Qed.




(** C10.  [make_bundle] treats the empty string as it treats an absent base
    hash: the two calls do the same and end the same.  On a clone in which
    the head of the tracked branch resolves, the call asks the bundle maker
    for the full bundle of that head, once, and returns what it gives; the
    head is the only commit looked up.  In no case is the empty string
    looked up as a commit, and in no case is a difference bundle built. *)
Theorem empty_base_is_no_base `{BundleBuilder PolicyBundle} self d :
  let run := make_bundle self (Some "") d in
  run = make_bundle self None d
  ∧ (RepoCommit "" ∉ trace run)
  ∧ Forall (λ e, ∀ base commit, e ≠ BuildDiffBundle base commit) (trace run)
  ∧ (∀ repo head c,
       d = Present repo →
       branch_head self repo = Some head →
       head ≠ "" →
       revparse_single repo head = Ok c →
       run = (build {| bm_repo := repo;
                       bm_directories := directories (_source self);
                       bm_extensions := extensions (_source self);
                       bm_root_manifest_path := manifest (_source self);
                       bm_bundle_ignore := bundle_ignore (_source self) |} c,
              Present repo, [RepoCommit head; BuildBundle c])).
Proof.
  simpl. split; [done|].
  assert (∀ repo head c,
            d = Present repo → branch_head self repo = Some head → head ≠ "" →
            revparse_single repo head = Ok c →
            make_bundle self (Some "") d
            = (build {| bm_repo := repo;
                        bm_directories := directories (_source self);
                        bm_extensions := extensions (_source self);
                        bm_root_manifest_path := manifest (_source self);
                        bm_bundle_ignore := bundle_ignore (_source self) |} c,
               Present repo, [RepoCommit head; BuildBundle c])) as Hfull.
  { intros repo head c -> Hhead Hne Hc.
    by rewrite (make_bundle_run self (Some "") repo head c Hhead Hne Hc). }
  assert (∀ t : list event,
            Forall (λ e, e ≠ RepoCommit "" ∧ ∀ base commit, e ≠ BuildDiffBundle base commit) t →
            (RepoCommit "" ∉ t)
            ∧ Forall (λ e, ∀ base commit, e ≠ BuildDiffBundle base commit) t) as Hsplit.
  { intros t Ht. split.
    - intros Hin. by destruct (proj1 (Forall_forall _ _) Ht _ Hin).
    - eapply Forall_impl; [exact Ht|]. by intros e [_ He]. }
  split; [|split; [|exact Hfull]]; apply Hsplit; clear Hfull Hsplit;
    unfold make_bundle, Repo_open, Repo_worktree, try_except, bind, get, ret, raise;
    (destruct d as [| |repo]; simpl; [by repeat constructor..|]);
    rewrite current_branch_head_run;
    (destruct (branch_head self repo) as [head|]; simpl; [|by repeat constructor]);
    (case_bool_decide as Hhead; simpl; [by repeat constructor|]);
    unfold Repo_commit, BundleMaker_make_bundle, bind, emit, ret, raise, lift_result;
    repeat (case_match; simpl in *; simplify_eq);
    repeat constructor; congruence || done.
Qed.

(** The empty base hash on the clone that is one commit behind: the full
    bundle of the remote's head. *)
Lemma empty_base_is_no_base_witness :
  make_bundle (PolicyBundle := SampleBundle) sample_fetcher (Some "") (Present behind_repo)
  = (Ok (FullBundle "c2"), Present behind_repo, [RepoCommit "c2"; BuildBundle "c2"]).
Proof.
  refine (proj2 (proj2 (proj2 (empty_base_is_no_base (H := sample_builder) sample_fetcher
                                 (Present behind_repo))))
            behind_repo "c2" "c2" eq_refl eq_refl _ eq_refl).
  discriminate.
Defined.

(** * Further properties of the code *)

(** ** The shape of a clone and of a change detection *)

Lemma clone_cases self net d :
  let run := _clone self net d in
  let cloning := NetClone (url (_source self)) (branch (_source self)) in
  match net_clone net (url (_source self)) (branch (_source self)) with
  | Ok repo =>
      final run = Present repo
      ∧ match head_target repo with
        | Ok head =>
            outcome run = on_update (callbacks self) None head
            ∧ effects (trace run) = [cloning; OnUpdate None head]
        | Raise e =>
            outcome run = Raise e ∧ effects (trace run) = [cloning]
        end
  | Raise e =>
      final run = d
      ∧ effects (trace run) = [cloning]
      ∧ outcome run = if bool_decide (exn_cls e = GitError) then Ok tt else Raise e
  end.
Proof.
  simpl.
  unfold _clone, try_except, run_sync, clone_repository, logger, bind, emit,
    lift_result, ret, put, call_on_update, bind, emit, lift_result.
  destruct (net_clone _ _ _) as [repo|e]; simpl.
  - destruct (head_target repo) as [head|e]; simpl; [|done].
    by destruct (on_update _ _ _) as [[]|e].
  - destruct e as [cls msg]. rewrite catches_class. simpl.
    destruct cls; by vm_compute.
Qed.

Lemma clone_shape_holds self net d :
  clone_shape self (effects (trace (_clone self net d))).
Proof.
  pose proof (clone_cases self net d) as H. simpl in H.
  destruct (net_clone _ _ _) as [repo|e].
  - destruct H as [_ H]. destruct (head_target repo) as [head|e].
    + destruct H as [_ ->]. constructor.
    + destruct H as [_ ->]. constructor.
  - destruct H as (_ & -> & _). constructor.
Qed.

Lemma notify_shape_holds self repo :
  notify_shape self (effects (trace (_notify_on_changes self repo))).
Proof.
  destruct (branch_head self repo) as [new|] eqn:Hhead.
  - destruct (references repo !! tracking_ref self) as [old|] eqn:Hlocal.
    + rewrite (notify_tracked self repo old new Hhead Hlocal).
      destruct (on_update _ _ _); constructor.
    + destruct (references repo !! remote_tracking_ref self) as [c|] eqn:Hremote.
      * destruct (notify_first_sync self repo c new Hhead Hlocal Hremote) as [msg ->].
        destruct (on_update _ _ _); constructor.
      * rewrite (notify_missing_branch self repo new Hhead Hlocal Hremote).
        constructor.
  - destruct (notify_unresolved self repo Hhead) as [msg ->]. constructor.
Qed.

Lemma remotes_getitem_name repo name remote :
  remotes_getitem repo name = Ok remote →
  remote_name remote = name ∧ remote ∈ remotes repo.
Proof.
  unfold remotes_getitem.
  destruct (List.find _ _) as [rm|] eqn:E; [|discriminate].
  intros [= <-]. apply find_some in E as [Hin Hname].
  split; [by apply bool_decide_eq_true in Hname|by apply list_elem_of_In].
Qed.

Lemma remotes_getitem_missing repo name e :
  remotes_getitem repo name = Raise e →
  e = Exn KeyError name ∧ ∀ remote, remote ∈ remotes repo → remote_name remote ≠ name.
Proof.
  unfold remotes_getitem.
  destruct (List.find _ _) as [rm|] eqn:E; [discriminate|].
  intros [= <-]. split; [done|].
  intros remote Hin%list_elem_of_In. apply (find_none _ _ E) in Hin.
  by apply bool_decide_eq_false in Hin.
Qed.

(** ** The remaining cases of a cycle *)

Lemma synchronize_corrupt self net hinted_hash force_fetch :
  ∃ pre,
    effects pre = [] ∧
    fetch_and_notify_on_changes self net hinted_hash force_fetch Corrupt
    = (outcome (_clone self net Absent), final (_clone self net Absent),
       LockAcquire :: pre ++ Rmtree :: trace (_clone self net Absent) ++ [LockRelease]).
Proof.
  unfold_cycle.
  exists [Log DEBUG "Repo found at {path}"; Log WARNING "Invalid repo at: {path}";
          Log WARNING "Deleting invalid repo: {path}"].
  split; [done|].
  by destruct (_clone self net Absent) as [[[[]|e] d] t].
Qed.

Lemma synchronize_remote_missing self net hinted_hash force_fetch repo e :
  remote_matches self repo = true →
  fetch_decision force_fetch (branch_known self repo) hinted_hash
    (resolves_locally repo) = true →
  remotes_getitem repo (_remote self) = Raise e →
  ∃ pre,
    effects pre = [] ∧
    fetch_and_notify_on_changes self net hinted_hash force_fetch (Present repo)
    = (Raise e, Present repo, LockAcquire :: pre ++ [LockRelease]).
Proof.
  intros Hvalid Hfetch Hremote.
  destruct (verify_matches self repo (Present repo) Hvalid) as [msg Hverify].
  destruct (should_fetch_run self repo hinted_hash force_fetch repo)
    as (logs & Hrun & Hlogs).
  rewrite Hfetch in Hrun.
  unfold_cycle. rewrite Hverify. simpl. rewrite Hrun.
  unfold lift_result. rewrite Hremote. simpl.
  exists (Log DEBUG "Repo found at {path}" :: Log DEBUG msg :: logs
          ++ [Log DEBUG "Fetching remote (force_fetch={force_fetch}): {self._remote} ({self._source.url})"]).
  split; [by rewrite !app_comm_cons, effects_app; simpl; rewrite Hlogs|].
  simpl. by rewrite <- !app_assoc.
Qed.

(** ** Every cycle has one of the shapes *)

Lemma cycle_cases self net hinted_hash force_fetch d :
  ∃ body,
    trace (fetch_and_notify_on_changes self net hinted_hash force_fetch d)
    = LockAcquire :: body ++ [LockRelease]
    ∧ cycle_shape self d (effects body).
Proof.
  destruct d as [| |repo].
  - destruct (synchronize_absent self net hinted_hash force_fetch) as [msg ->].
    exists (Log INFO msg :: trace (_clone self net Absent)). split; [done|].
    constructor. apply clone_shape_holds.
  - destruct (synchronize_corrupt self net hinted_hash force_fetch) as (pre & Hpre & ->).
    exists (pre ++ Rmtree :: trace (_clone self net Absent)).
    split; [unfold trace; simpl; by rewrite <- app_assoc|].
    rewrite effects_app, Hpre. simpl. constructor. apply clone_shape_holds.
  - destruct (remote_matches self repo) eqn:Hvalid.
    2: { destruct (synchronize_mismatch self net hinted_hash force_fetch repo Hvalid)
           as [msg ->].
         exists [Log DEBUG msg; Log ERROR (exn_msg repo_mismatch)]. split; [done|].
         by constructor. }
    destruct (fetch_decision force_fetch (branch_known self repo) hinted_hash
                (resolves_locally repo)) eqn:Hdec.
    2: { destruct (synchronize_skip_fetch self net hinted_hash force_fetch repo Hvalid Hdec)
           as (pre & Hpre & ->).
         exists (pre ++ trace (_notify_on_changes self repo)).
         split; [unfold trace at 1; simpl; by rewrite <- app_assoc|].
         rewrite effects_app, Hpre. simpl.
         apply cycle_no_fetch; [done|]. apply notify_shape_holds. }
    destruct (remotes_getitem repo (_remote self)) as [remote|e] eqn:Hremote.
    2: { destruct (synchronize_remote_missing self net hinted_hash force_fetch repo e
                     Hvalid Hdec Hremote) as (pre & Hpre & ->).
         exists pre. split; [done|]. rewrite Hpre.
         apply cycle_no_fetch; [done|]. constructor. }
    destruct (remotes_getitem_name _ _ _ Hremote) as [Hname _].
    destruct (net_fetch net remote) as [heads|e] eqn:Hnet.
    + destruct (synchronize_fetch_ok self net hinted_hash force_fetch repo remote heads
                  Hvalid Hdec Hremote Hnet) as (pre & post & Hpre & Hpost & ->).
      set (after := _notify_on_changes self (fetched (remote_name remote) heads repo)).
      exists (pre ++ NetFetch (remote_name remote) :: post ++ trace after).
      split; [unfold trace at 1; simpl;
              repeat first [rewrite <- app_assoc | progress simpl]; done|].
      rewrite effects_app, Hpre. simpl. rewrite effects_app, Hpost. simpl.
      rewrite Hname. apply cycle_fetch; [done|]. apply notify_shape_holds.
    + destruct (synchronize_fetch_failed self net hinted_hash force_fetch repo remote e
                  Hvalid Hdec Hremote Hnet) as (pre & Hpre & ->).
      exists (pre ++ [NetFetch (remote_name remote)]).
      split; [unfold trace; simpl; by rewrite <- !app_assoc|].
      rewrite effects_app, Hpre. simpl. rewrite Hname.
      apply cycle_fetch; [done|]. constructor.
Qed.

Lemma Forall_effects (P : event → Prop) t :
  (∀ lvl msg, P (Log lvl msg)) → Forall P (effects t) → Forall P t.
Proof.
  intros Hlog. induction t as [|e t IH]; [done|].
  unfold effects; simpl. destruct e; simpl; intros H;
    try (inversion H; subst; constructor; [done|by apply IH]).
  constructor; [apply Hlog|by apply IH].
Qed.

Lemma Exists_effects (P : event → Prop) t :
  (∀ lvl msg, ¬ P (Log lvl msg)) → Exists P t ↔ Exists P (effects t).
Proof.
  intros Hlog. induction t as [|e t IH]; [done|].
  unfold effects; simpl. destruct e; simpl; fold (effects t);
    rewrite ?Exists_cons, ?IH; try done.
  split; [intros [H|H]; [by apply Hlog in H|done]|by right].
Qed.

Lemma notify_shape_events self t :
  notify_shape self t →
  Forall (λ e, is_notify e || is_ref_write e = true) t
  ∧ (length (notifications t) ≤ 1)%nat.
Proof. destruct 1; simpl; split; by repeat constructor. Qed.

Lemma clone_shape_events self t :
  clone_shape self t →
  Forall (λ e, is_clone e || is_notify e = true) t
  ∧ Exists (λ e, is_clone e = true) t
  ∧ (length (notifications t) ≤ 1)%nat.
Proof.
  destruct 1; simpl; (split; [by repeat constructor|split; [by left|lia]]).
Qed.

Lemma cycle_shape_events self d t :
  cycle_shape self d t →
  Forall (λ e, cycle_event e = true) t
  ∧ (length (notifications t) ≤ 1)%nat.
Proof.
  destruct 1 as [t Ht|t Ht|repo Hmis|repo t Hvalid Ht|repo t Hvalid Ht].
  - destruct Ht; simpl; split; by repeat constructor.
  - destruct Ht; simpl; split; by repeat constructor.
  - simpl; split; by repeat constructor.
  - destruct Ht; simpl; split; by repeat constructor.
  - destruct Ht; simpl; split; by repeat constructor.
Qed.

Lemma cycle_shape_kinds self d t :
  cycle_shape self d t →
  (Exists (λ e, is_rmtree e = true) t ↔ d = Corrupt)
  ∧ (Exists (λ e, is_clone e = true) t ↔ openable d = false)
  ∧ (Exists (λ e, is_fetch e || is_ref_write e = true) t →
     ∃ repo, d = Present repo ∧ remote_matches self repo = true)
  ∧ Forall (λ e, is_ref_write e = true →
                 ∃ target, e = CreateReference (tracking_ref self) target
                           ∨ e = SetTarget (tracking_ref self) target) t.
Proof.
  destruct 1 as [t Ht|t Ht|repo Hmis|repo t Hvalid Ht|repo t Hvalid Ht];
    try destruct Ht; simpl;
    rewrite ?Exists_cons, ?Exists_nil; simpl;
    (split; [intuition discriminate|]); (split; [intuition discriminate|]);
    (split; [intuition (discriminate || eauto)|]);
    repeat constructor; simpl; try discriminate; eauto.
Qed.

Lemma effects_bracketed body :
  effects (LockAcquire :: body ++ [LockRelease])
  = LockAcquire :: effects body ++ [LockRelease].
Proof. unfold effects at 1. simpl. fold (effects (body ++ [LockRelease])).
       by rewrite effects_app. Qed.

(** ** What every cycle does and never does *)

Lemma cycle_notification_count self net hinted_hash force_fetch d :
  (length (notifications
     (trace (fetch_and_notify_on_changes self net hinted_hash force_fetch d))) ≤ 1)%nat.
Proof.
  destruct (cycle_cases self net hinted_hash force_fetch d) as (body & -> & Hshape).
  apply cycle_shape_events in Hshape as [_ Hnotes].
  rewrite <- notifications_effects, effects_bracketed. simpl.
  rewrite notifications_app. simpl. by rewrite app_nil_r.
Qed.

(** Whatever the clone, the network, the callback and the arguments, one
    cycle invokes the callback at most once; so over any sequence of calls
    the callback is invoked at most once per call. *)
Theorem cycle_notifies_at_most_once self :
  (∀ net hinted_hash force_fetch d,
     (length (notifications
        (trace (fetch_and_notify_on_changes self net hinted_hash force_fetch d))) ≤ 1)%nat)
  ∧ (∀ calls d,
       (length (notifications (synchronize_all self calls d).2) ≤ length calls)%nat).
Proof.
  split; [apply cycle_notification_count|].
  induction calls as [|c calls IH]; intros d; [done|].
  simpl.
  pose proof (cycle_notification_count self (call_net c) (call_hinted_hash c)
                (call_force_fetch c) d) as Hone.
  destruct (fetch_and_notify_on_changes _ _ _ _ d) as [[r d1] t1].
  specialize (IH d1). destruct (synchronize_all self calls d1) as [d2 t2].
  unfold trace in Hone. simpl in *.
  rewrite notifications_app, length_app. lia.
Qed.



(** ** Repair, and the errors of the fetch phase *)

(** A cycle that finds something pygit2 cannot open deletes it and clones,
    whatever the hint and the force flag.  When the clone succeeds the
    directory holds the cloned repository and the callback is invoked with
    no old revision; when the clone fails with [pygit2.GitError] nothing is
    raised, and the directory stays deleted. *)
Theorem corrupt_clone_is_replaced self net hinted_hash force_fetch :
  let run := fetch_and_notify_on_changes self net hinted_hash force_fetch Corrupt in
  let cloning := NetClone (url (_source self)) (branch (_source self)) in
  (∀ repo head,
     net_clone net (url (_source self)) (branch (_source self)) = Ok repo →
     head_target repo = Ok head →
     effects (trace run)
     = [LockAcquire; Rmtree; cloning; OnUpdate None head; LockRelease]
     ∧ final run = Present repo
     ∧ outcome run = on_update (callbacks self) None head)
  ∧ (∀ e,
       net_clone net (url (_source self)) (branch (_source self)) = Raise e →
       exn_cls e = GitError →
       effects (trace run) = [LockAcquire; Rmtree; cloning; LockRelease]
       ∧ final run = Absent
       ∧ outcome run = Ok tt).
Proof.
  simpl.
  destruct (synchronize_corrupt self net hinted_hash force_fetch) as (pre & Hpre & ->).
  pose proof (clone_cases self net Absent) as Hclone. simpl in Hclone.
  unfold trace at 1 3; simpl.
  rewrite !app_comm_cons, !effects_app. simpl. rewrite Hpre. simpl.
  split.
  - intros repo head Hnet Hhead. rewrite Hnet, Hhead in Hclone.
    destruct Hclone as (Hfinal & Hout & ->). done.
  - intros e Hnet Hcls. rewrite Hnet in Hclone.
    destruct Hclone as (Hfinal & -> & Hout).
    rewrite bool_decide_eq_true_2 in Hout by done. done.
Qed.

(** A broken directory, with the remote up and with the remote down. *)
Lemma corrupt_clone_is_replaced_witness :
  (let run := fetch_and_notify_on_changes sample_fetcher
                (net_up [("main", "c1")] synced_repo) (Some "c1") true Corrupt in
   final run = Present synced_repo ∧ outcome run = Ok tt)
  ∧ (let run := fetch_and_notify_on_changes sample_fetcher net_down None false Corrupt in
     final run = Absent ∧ outcome run = Ok tt).
Proof.
  split.
  - pose proof (proj1 (corrupt_clone_is_replaced sample_fetcher
                         (net_up [("main", "c1")] synced_repo) (Some "c1") true)
                  synced_repo "c1" eq_refl eq_refl) as (_ & Hf & Ho).
    exact (conj Hf Ho).
  - pose proof (proj2 (corrupt_clone_is_replaced sample_fetcher net_down None false)
                  (Exn GitError "failed to connect") eq_refl eq_refl) as (_ & Hf & Ho).
    exact (conj Hf Ho).
Defined.

(** On a valid clone that has no remote of the configured name, a cycle
    that decides to fetch raises [KeyError] to the caller before it reaches
    the network; the clone is left as it was and nothing is notified. *)
Theorem missing_remote_name_raises self net hinted_hash force_fetch repo :
  remote_matches self repo = true →
  fetch_decision force_fetch (branch_known self repo) hinted_hash
    (resolves_locally repo) = true →
  (∀ remote, remote ∈ remotes repo → remote_name remote ≠ _remote self) →
  let run := fetch_and_notify_on_changes self net hinted_hash force_fetch (Present repo) in
  outcome run = Raise (Exn KeyError (_remote self))
  ∧ final run = Present repo
  ∧ effects (trace run) = [LockAcquire; LockRelease].
Proof.
  intros Hvalid Hdec Hnone. simpl.
  destruct (remotes_getitem repo (_remote self)) as [remote|e] eqn:Hremote.
  { apply remotes_getitem_name in Hremote as [Hname Hin]. by apply Hnone in Hin. }
  destruct (remotes_getitem_missing _ _ _ Hremote) as [-> _].
  destruct (synchronize_remote_missing self net hinted_hash force_fetch repo _
              Hvalid Hdec Hremote) as (pre & Hpre & ->).
  repeat split. unfold trace; simpl. by rewrite effects_app, Hpre.
Qed.

(** The expected url is under the remote [upstream]; the fetcher asks for
    [origin]. *)
Lemma missing_remote_name_raises_witness :
  let run := fetch_and_notify_on_changes sample_fetcher
               (net_up [("main", "c1")] synced_repo) None true (Present upstream_repo) in
  outcome run = Raise (Exn KeyError "origin")
  ∧ final run = Present upstream_repo
  ∧ effects (trace run) = [LockAcquire; LockRelease].
Proof.
  apply (missing_remote_name_raises sample_fetcher (net_up [("main", "c1")] synced_repo)
           None true upstream_repo); [reflexivity..|].
  intros remote Hin. apply list_elem_of_singleton in Hin. by subst.
Defined.

(** A cycle that decides to fetch and finds the configured remote fetches
    it exactly once, as the first thing it does under the lock, and never
    clones, whatever the network answers. *)
Theorem fetch_comes_first self net hinted_hash force_fetch repo remote :
  remote_matches self repo = true →
  fetch_decision force_fetch (branch_known self repo) hinted_hash
    (resolves_locally repo) = true →
  remotes_getitem repo (_remote self) = Ok remote →
  let run := fetch_and_notify_on_changes self net hinted_hash force_fetch (Present repo) in
  ∃ rest,
    effects (trace run) = LockAcquire :: NetFetch (_remote self) :: rest
    ∧ off_network rest.
Proof.
  intros Hvalid Hdec Hremote. simpl.
  destruct (remotes_getitem_name _ _ _ Hremote) as [Hname _].
  destruct (net_fetch net remote) as [heads|e] eqn:Hnet.
  - destruct (synchronize_fetch_ok self net hinted_hash force_fetch repo remote heads
                Hvalid Hdec Hremote Hnet) as (pre & post & Hpre & Hpost & ->).
    set (after := _notify_on_changes self (fetched (remote_name remote) heads repo)).
    exists (effects (trace after) ++ [LockRelease]). split.
    + unfold trace at 1; simpl.
      rewrite app_comm_cons, effects_app. simpl. rewrite Hpre. simpl.
      rewrite !effects_app, Hpost, Hname. done.
    + apply Forall_app. split; [|by repeat constructor].
      pose proof (notify_no_network self (fetched (remote_name remote) heads repo)) as Hoff.
      fold after in Hoff. unfold off_network in *.
      clear -Hoff. induction (trace after) as [|e t IH]; [constructor|].
      inversion Hoff; subst. unfold effects; simpl.
      destruct (is_log e); simpl; [by apply IH|]. constructor; [done|by apply IH].
  - destruct (synchronize_fetch_failed self net hinted_hash force_fetch repo remote e
                Hvalid Hdec Hremote Hnet) as (pre & Hpre & ->).
    exists [LockRelease]. split; [|by repeat constructor].
    unfold trace; simpl. rewrite effects_app, Hpre, Hname. done.
Qed.

(** A forced cycle on the clone that is one commit behind. *)
Lemma fetch_comes_first_witness :
  let run := fetch_and_notify_on_changes sample_fetcher
               (net_up [("main", "c2")] synced_repo) None true (Present behind_repo) in
  ∃ rest,
    effects (trace run) = LockAcquire :: NetFetch "origin" :: rest
    ∧ off_network rest.
Proof.
  apply (fetch_comes_first sample_fetcher (net_up [("main", "c2")] synced_repo)
           None true behind_repo {| remote_name := "origin"; remote_url := origin_url |});
    reflexivity.
Defined.

(** ** The change detection *)

(** On a valid clone that has the configured remote and a tracking ref for
    the branch, so that both names are well formed: when, after the fetch
    phase, the short name of the remote's tracked branch does not resolve,
    the cycle logs an error and returns normally.  The callback is not
    invoked, no reference is written, the tracking ref is where it was, and
    the clone is as the fetch phase left it. *)
Theorem unresolved_head_ends_quietly self net hinted_hash force_fetch repo repo1
    remote old_revision :
  remote_matches self repo = true →
  remotes_getitem repo (_remote self) = Ok remote →
  tracking_ref_of self (Present repo) = Some old_revision →
  fetch_phase self net hinted_hash force_fetch repo = Some repo1 →
  branch_head self repo1 = None →
  let run := fetch_and_notify_on_changes self net hinted_hash force_fetch (Present repo) in
  outcome run = Ok tt
  ∧ final run = Present repo1
  ∧ tracking_ref_of self (final run) = Some old_revision
  ∧ notifications (trace run) = []
  ∧ Forall (λ e, is_ref_write e = false) (trace run)
  ∧ ∃ msg, Log ERROR msg ∈ trace run.
Proof.
  intros Hvalid _ Hold Hphase Hhead. simpl.
  pose proof (fetch_phase_local_branch _ _ _ _ _ _ Hphase) as Hsame.
  destruct (synchronize_valid_cycle self net hinted_hash force_fetch repo repo1
              Hvalid Hphase) as (pre & Hpre & ->).
  destruct (notify_unresolved self repo1 Hhead) as [msg ->].
  unfold outcome, final, trace; simpl. repeat split.
  - simpl in Hold. by rewrite Hsame.
  - rewrite notifications_app. by rewrite (notifications_log_or_fetch pre Hpre).
  - constructor; [done|]. apply Forall_app. split; [|by repeat constructor].
    eapply Forall_impl; [exact Hpre|]. intros e [He|He]; by destruct e.
  - exists msg. apply elem_of_cons. right. apply elem_of_app. right.
    apply elem_of_cons. by left.
Qed.

(** The remote no longer has [main]. *)
Lemma unresolved_head_ends_quietly_witness :
  let run := fetch_and_notify_on_changes sample_fetcher
               (net_up [("dev", "c1")] synced_repo) None false
               (Present pruned_repo) in
  outcome run = Ok tt
  ∧ final run = Present (fetched "origin" [("dev", "c1")] pruned_repo)
  ∧ tracking_ref_of sample_fetcher (final run) = Some "c1"
  ∧ notifications (trace run) = []
  ∧ Forall (λ e, is_ref_write e = false) (trace run)
  ∧ ∃ msg, Log ERROR msg ∈ trace run.
Proof.
  apply (unresolved_head_ends_quietly sample_fetcher (net_up [("dev", "c1")] synced_repo)
           None false pruned_repo
           (fetched "origin" [("dev", "c1")] pruned_repo)
           {| remote_name := "origin"; remote_url := origin_url |} "c1");
    reflexivity.
Defined.

(** When a cycle on a valid clone resolves the branch head and returns
    normally, the clone it leaves is the one of the fetch phase with the
    tracking ref at that head: the tracking ref equals the revision just
    reported, and nothing else has changed. *)
Theorem normal_return_sets_tracking_ref self net hinted_hash force_fetch
    repo repo1 new_revision :
  remote_matches self repo = true →
  fetch_phase self net hinted_hash force_fetch repo = Some repo1 →
  branch_head self repo1 = Some new_revision →
  let run := fetch_and_notify_on_changes self net hinted_hash force_fetch (Present repo) in
  outcome run = Ok tt →
  final run = Present (set_references (insert (tracking_ref self) new_revision) repo1)
  ∧ ∃ old_revision, notifications (trace run) = [(old_revision, new_revision)].
Proof.
  intros Hvalid Hphase Hhead. simpl.
  destruct (synchronize_valid_cycle self net hinted_hash force_fetch repo repo1
              Hvalid Hphase) as (pre & Hpre & ->).
  pose proof (notifications_log_or_fetch pre Hpre) as Hnotes.
  unfold outcome at 1, final at 1, trace at 1; simpl.
  rewrite notifications_app, Hnotes, notifications_app. simpl. rewrite app_nil_r.
  destruct (references repo1 !! tracking_ref self) as [old|] eqn:Hlocal.
  - rewrite (notify_tracked self repo1 old new_revision Hhead Hlocal).
    destruct (on_update _ _ _) as [[]|e]; [|discriminate].
    intros _. split; [done|by eexists].
  - destruct (references repo1 !! remote_tracking_ref self) as [c|] eqn:Hremote.
    + destruct (notify_first_sync self repo1 c new_revision Hhead Hlocal Hremote)
        as [msg ->].
      destruct (on_update _ _ _) as [[]|e]; [|discriminate].
      intros _. split; [done|by eexists].
    + rewrite (notify_missing_branch self repo1 new_revision Hhead Hlocal Hremote).
      discriminate.
Qed.

(** The clone that is one commit behind catches up. *)
Lemma normal_return_sets_tracking_ref_witness :
  let run := fetch_and_notify_on_changes sample_fetcher net_down None false
               (Present behind_repo) in
  final run
  = Present (set_references (insert "refs/heads/main" "c2") behind_repo)
  ∧ ∃ old_revision, notifications (trace run) = [(old_revision, "c2")].
Proof.
  apply (normal_return_sets_tracking_ref sample_fetcher net_down None false
           behind_repo behind_repo "c2"); reflexivity.
Defined.

(** ** Cloning *)

(** [_clone] swallows [pygit2.GitError] from the clone and nothing else.
    A clone that fails with another class of error raises it, with the
    directory untouched and no notification.  After a successful clone an
    error of the callback is raised to the caller even when it is a
    [GitError], and the clone stays in place. *)
Theorem clone_swallows_only_git_error self net d :
  let run := _clone self net d in
  (∀ e,
     net_clone net (url (_source self)) (branch (_source self)) = Raise e →
     outcome run = (if bool_decide (exn_cls e = GitError) then Ok tt else Raise e)
     ∧ final run = d
     ∧ notifications (trace run) = [])
  ∧ (∀ repo head e,
       net_clone net (url (_source self)) (branch (_source self)) = Ok repo →
       head_target repo = Ok head →
       on_update (callbacks self) None head = Raise e →
       outcome run = Raise e
       ∧ final run = Present repo
       ∧ notifications (trace run) = [(None, head)]).
Proof.
  pose proof (clone_cases self net d) as Hclone. simpl in *. split.
  - intros e Hnet. rewrite Hnet in Hclone. destruct Hclone as (Hf & Ht & Ho).
    repeat split; [done|done|]. by rewrite <- notifications_effects, Ht.
  - intros repo head e Hnet Hhead Hcb. rewrite Hnet, Hhead in Hclone.
    destruct Hclone as (Hf & Ho & Ht).
    repeat split; [congruence|done|]. by rewrite <- notifications_effects, Ht.
Qed.

(** A clone refused with [KeyError], and a callback that raises [GitError]
    after a good clone. *)
Lemma clone_swallows_only_git_error_witness :
  (let run := _clone sample_fetcher net_refused Absent in
   outcome run = Raise (Exn KeyError "reference not found") ∧ final run = Absent)
  ∧ (let picky := {| _source := sample_source; _remote := "origin";
                     callbacks := {| on_update := λ _ _, Raise (Exn GitError "busy") |} |} in
     let run := _clone picky (net_up [] synced_repo) Absent in
     outcome run = Raise (Exn GitError "busy") ∧ final run = Present synced_repo).
Proof.
  split.
  - pose proof (proj1 (clone_swallows_only_git_error sample_fetcher net_refused Absent)
                  (Exn KeyError "reference not found") eq_refl) as (Ho & Hf & _).
    exact (conj Ho Hf).
  - intros picky.
    pose proof (proj2 (clone_swallows_only_git_error picky (net_up [] synced_repo) Absent)
                  synced_repo "c1" (Exn GitError "busy") eq_refl eq_refl eq_refl)
      as (Ho & Hf & _).
    exact (conj Ho Hf).
Defined.

(** ** Validation *)

(** [_get_valid_repo] never writes.  It returns a repository exactly when
    the directory holds one that pygit2 opens and one of whose remotes has
    exactly the descriptor's url, and it returns [None] exactly when pygit2
    cannot open the directory. *)
Theorem get_valid_repo_returns_matching self d :
  let run := _get_valid_repo self d in
  final run = d
  ∧ effects (trace run) = []
  ∧ (∀ repo, outcome run = Ok (Some repo)
             ↔ d = Present repo ∧ remote_matches self repo = true)
  ∧ (outcome run = Ok None ↔ openable d = false).
Proof.
  simpl. unfold _get_valid_repo, try_except, Repository_open, bind, get, ret, raise.
  destruct d as [| |repo]; simpl.
  - split; [done|]. split; [done|]. split; [|done].
    intros repo. split; [discriminate|]. by intros [? _].
  - split; [done|]. split; [done|]. split; [|done].
    intros repo. split; [discriminate|]. by intros [? _].
  - destruct (remote_matches self repo) eqn:Hvalid.
    + destruct (verify_matches self repo (Present repo) Hvalid) as [msg ->]. simpl.
      split; [done|]. split; [done|]. split; [|split; discriminate].
      intros repo0. unfold outcome; simpl. split.
      * by intros [= <-].
      * by intros [[= <-] _].
    + rewrite (verify_mismatch self repo (Present repo) Hvalid). simpl.
      split; [done|]. split; [done|]. split; [|split; discriminate].
      intros repo0. unfold outcome; simpl. split; [discriminate|].
      intros [[= <-] H]. congruence.
Qed.

(** The sample clone is returned; the clone of another repository is not. *)
Lemma get_valid_repo_returns_matching_witness :
  outcome (_get_valid_repo sample_fetcher (Present synced_repo)) = Ok (Some synced_repo)
  ∧ outcome (_get_valid_repo sample_fetcher (Present foreign_repo)) ≠ Ok (Some foreign_repo).
Proof.
  split.
  - exact (proj2 (proj1 (proj2 (proj2 (get_valid_repo_returns_matching sample_fetcher
                                         (Present synced_repo)))) synced_repo)
             (conj eq_refl eq_refl)).
  - intros Hsome.
    pose proof (proj1 (proj1 (proj2 (proj2 (get_valid_repo_returns_matching sample_fetcher
                                              (Present foreign_repo)))) foreign_repo)
                  Hsome) as [_ Hmatch].
    discriminate Hmatch.
Defined.

(** ** Local branches *)

Lemma create_local_branch_ref_existing repo branch_name remote_name base_branch c :
  references repo !! ("refs/heads/" +:+ branch_name) = Some c →
  ∃ msg,
    RepoInterface.create_local_branch_ref branch_name remote_name base_branch repo
    = (Ok {| ref_name := "refs/heads/" +:+ branch_name; ref_target := c |}, repo,
       [Log DEBUG msg]).
Proof.
  intros Hlocal.
  unfold RepoInterface.create_local_branch_ref, bind, get, branches_local_contains.
  rewrite Hlocal. simpl.
  unfold logger, emit, lift_result, references_getitem, lookup_reference.
  rewrite Hlocal. by eexists.
Qed.

Lemma create_local_branch_ref_returns repo branch_name remote_name base_branch ref :
  let run := RepoInterface.create_local_branch_ref branch_name remote_name
               base_branch repo in
  outcome run = Ok ref →
  ref_name ref = "refs/heads/" +:+ branch_name
  ∧ references (final run) !! ("refs/heads/" +:+ branch_name) = Some (ref_target ref).
Proof.
  simpl.
  destruct (references repo !! ("refs/heads/" +:+ branch_name)) as [c|] eqn:Hlocal.
  - destruct (create_local_branch_ref_existing repo branch_name remote_name
                base_branch c Hlocal) as [msg ->].
    unfold outcome, final; simpl. by intros [= <-].
  - unfold RepoInterface.create_local_branch_ref, create_reference, logger,
      lift_result, bind, get, put, emit, ret, raise, branches_local_contains.
    rewrite Hlocal. simpl.
    destruct (branches_remote_contains repo _); [|destruct (bool_decide _)];
      try (unfold outcome; simpl; discriminate);
      (destruct (resolve_refish repo _) as [commit|e]; simpl;
       [|unfold outcome; simpl; discriminate]);
      rewrite Hlocal; unfold outcome, final; simpl;
      intros [= <-]; (split; [done|apply lookup_insert_eq]).
Qed.

(** [create_local_branch_ref] is idempotent: once a call has returned a
    reference, a further call for the same branch, with any remote and base
    branch, returns the same reference and writes nothing.  The reference
    returned is the local branch, pointing where the repository says. *)
Theorem create_local_branch_ref_twice repo branch_name remote_name base_branch
    remote_name' base_branch' ref :
  let first := RepoInterface.create_local_branch_ref branch_name remote_name
                 base_branch repo in
  outcome first = Ok ref →
  let again := RepoInterface.create_local_branch_ref branch_name remote_name'
                 base_branch' (final first) in
  outcome again = Ok ref
  ∧ final again = final first
  ∧ effects (trace again) = []
  ∧ ref_name ref = "refs/heads/" +:+ branch_name
  ∧ references (final first) !! ref_name ref = Some (ref_target ref).
Proof.
  simpl. intros Hfirst.
  destruct (create_local_branch_ref_returns repo branch_name remote_name base_branch
              ref Hfirst) as [Hname Hlocal].
  destruct (create_local_branch_ref_existing _ branch_name remote_name'
              base_branch' _ Hlocal) as [msg ->].
  unfold outcome at 1, final at 1, trace; simpl.
  rewrite Hname. repeat split; try done.
  destruct ref as [n tgt]; simpl in *. by subst.
Qed.

(** The first synchronization of [main], then a second call. *)
Lemma create_local_branch_ref_twice_witness :
  let repo' := set_references (insert "refs/heads/main" "c1") unsynced_repo in
  let again := RepoInterface.create_local_branch_ref "main" "elsewhere" "none" repo' in
  outcome again = Ok {| ref_name := "refs/heads/main"; ref_target := "c1" |}
  ∧ final again = repo'
  ∧ effects (trace again) = []
  ∧ references repo' !! "refs/heads/main" = Some "c1".
Proof.
  intros repo' again.
  pose proof (create_local_branch_ref_twice unsynced_repo "main" "origin" "main"
                "elsewhere" "none"
                {| ref_name := "refs/heads/main"; ref_target := "c1" |}
                eq_refl) as (Ho & Hf & Ht & _ & Hl).
  exact (conj Ho (conj Hf (conj Ht Hl))).
Defined.

(** When the local branch does not exist and the remote has a branch of
    that name, [create_local_branch_ref] creates the local branch at the
    commit of the remote's branch, whatever the base branch is, and writes
    nothing else: the base branch is not consulted. *)
Theorem create_local_branch_ref_prefers_branch repo branch_name remote_name
    base_branch commit :
  references repo !! ("refs/heads/" +:+ branch_name) = None →
  is_Some (references repo !! ("refs/remotes/" +:+ remote_name +:+ "/" +:+ branch_name)) →
  resolve_refish repo (remote_name +:+ "/" +:+ branch_name) = Ok commit →
  let run := RepoInterface.create_local_branch_ref branch_name remote_name
               base_branch repo in
  outcome run = Ok {| ref_name := "refs/heads/" +:+ branch_name; ref_target := commit |}
  ∧ final run = set_references (insert ("refs/heads/" +:+ branch_name) commit) repo
  ∧ effects (trace run) = [CreateReference ("refs/heads/" +:+ branch_name) commit].
Proof.
  intros Hlocal [c Hremote] Hresolve. simpl.
  destruct (create_local_branch_ref_tracked repo branch_name remote_name base_branch
              c commit Hlocal Hremote Hresolve) as [msg ->].
  done.
Qed.

(** The remote has [main] and [dev]: a local [main] with base [dev] starts
    at the commit of [main]. *)
Lemma create_local_branch_ref_prefers_branch_witness :
  let run := RepoInterface.create_local_branch_ref "main" "origin" "dev" unsynced_repo in
  outcome run = Ok {| ref_name := "refs/heads/main"; ref_target := "c1" |}
  ∧ final run = set_references (insert "refs/heads/main" "c1") unsynced_repo
  ∧ effects (trace run) = [CreateReference "refs/heads/main" "c1"].
Proof.
  apply (create_local_branch_ref_prefers_branch unsynced_repo "main" "origin" "dev" "c1");
    [reflexivity| |reflexivity].
  by exists "c1".
Defined.

(** ** The branch head and the bundles *)

(** [_get_current_branch_head] never writes.  It returns a commit exactly
    when the directory holds a repository in which the short name of the
    remote's tracked branch resolves, and then that commit; on a repository
    where the name does not resolve it raises the [ValueError] of the
    source, and on a directory pygit2 cannot open, [GitError]. *)
Theorem current_branch_head_is_remote_head self d :
  let run := _get_current_branch_head self d in
  final run = d
  ∧ (∀ head, outcome run = Ok head
             ↔ ∃ repo, d = Present repo ∧ branch_head self repo = Some head ∧ head ≠ "")
  ∧ (∀ e, outcome run = Raise e →
          if openable d
          then e = Exn ValueError "Could not find current branch head"
          else exn_cls e = GitError).
Proof.
  simpl. rewrite current_branch_head_run.
  destruct d as [| |repo]; simpl.
  - split; [done|]. split; [|by intros e [= <-]].
    intros head. split; [discriminate|]. by intros (repo & ? & _).
  - split; [done|]. split; [|by intros e [= <-]].
    intros head. split; [discriminate|]. by intros (repo & ? & _).
  - destruct (branch_head self repo) as [head|] eqn:Hhead.
    + case_bool_decide as Hempty; simpl.
      * split; [done|]. split; [|by intros e [= <-]].
        intros head'. split; [discriminate|].
        intros (repo' & [= <-] & Hh & Hne). congruence.
      * split; [done|]. split; [|discriminate].
        intros head'. unfold outcome; simpl. split.
        -- intros [= <-]. by exists repo.
        -- intros (repo' & [= <-] & Hh & Hne). congruence.
    + split; [done|]. split; [|by intros e [= <-]].
      intros head'. split; [discriminate|].
      intros (repo' & [= <-] & Hh & Hne). congruence.
Qed.

(** The head is the remote's [c2], not the local branch's [c1]. *)
Lemma current_branch_head_is_remote_head_witness :
  outcome (_get_current_branch_head sample_fetcher (Present behind_repo)) = Ok "c2".
Proof.
  apply (proj1 (proj2 (current_branch_head_is_remote_head sample_fetcher
                         (Present behind_repo)))).
  exists behind_repo. split; [reflexivity|]. split; [reflexivity|discriminate].
Defined.

(** With a base hash that resolves, [make_bundle] asks for the bundle of
    the difference between the base commit and the head of the tracked
    branch, and returns it.  When building the difference raises
    [ValueError] it returns the full bundle of the head instead; any other
    error of the builder is raised. *)
Theorem resolvable_base_gives_diff `{BundleBuilder PolicyBundle} self base_hash
    repo head c cb :
  branch_head self repo = Some head →
  head ≠ "" →
  revparse_single repo head = Ok c →
  base_hash ≠ "" →
  revparse_single repo base_hash = Ok cb →
  let bm := {| bm_repo := repo;
               bm_directories := directories (_source self);
               bm_extensions := extensions (_source self);
               bm_root_manifest_path := manifest (_source self);
               bm_bundle_ignore := bundle_ignore (_source self) |} in
  let run := make_bundle self (Some base_hash) (Present repo) in
  BuildDiffBundle cb c ∈ trace run
  ∧ outcome run
    = match build_diff bm cb c with
      | Ok b => Ok b
      | Raise e => if bool_decide (exn_cls e = ValueError) then build bm c else Raise e
      end.
Proof.
  intros Hhead Hne Hc Hbase Hcb. simpl.
  rewrite (make_bundle_run self (Some base_hash) repo head c Hhead Hne Hc).
  unfold truthy. rewrite bool_decide_eq_false_2 by done. simpl. rewrite Hcb.
  destruct (build_diff _ cb c) as [b|e].
  - split; [|done]. unfold trace; simpl. set_solver.
  - case_bool_decide; (split; [|done]); unfold trace; simpl; set_solver.
Qed.

(** A difference bundle from [c1] to [c2], and the full bundle when the
    builder cannot make the difference. *)
Lemma resolvable_base_gives_diff_witness :
  outcome (make_bundle (PolicyBundle := SampleBundle) sample_fetcher (Some "c1")
             (Present behind_repo))
  = Ok (DiffBundle "c1" "c2")
  ∧ outcome (make_bundle (H := no_diff_builder) sample_fetcher (Some "c1")
               (Present behind_repo))
    = Ok (FullBundle "c2").
Proof.
  split.
  - refine (proj2 (resolvable_base_gives_diff (H := sample_builder) sample_fetcher "c1"
                     behind_repo "c2" "c2" "c1" eq_refl _ eq_refl _ eq_refl));
      discriminate.
  - refine (proj2 (resolvable_base_gives_diff (H := no_diff_builder) sample_fetcher "c1"
                     behind_repo "c2" "c2" "c1" eq_refl _ eq_refl _ eq_refl));
      discriminate.
Defined.

(** [make_bundle] only reads: whatever the base hash, the clone and the
    builder, it leaves the clone directory as it is and does nothing but
    log, look commits up and ask the builder; it never fetches, clones,
    deletes, writes a reference or invokes the callback.  Without a
    repository to open it raises. *)
Theorem make_bundle_only_reads `{BundleBuilder PolicyBundle} self base_hash d :
  let run := make_bundle self base_hash d in
  final run = d
  ∧ Forall (λ e, is_bundle_event e = true) (trace run)
  ∧ (openable d = false → ∃ e, outcome run = Raise e).
Proof.
  simpl.
  unfold make_bundle, Repo_open, Repo_worktree, try_except, bind, get, ret, raise.
  destruct d as [| |repo]; simpl.
  - split; [done|]. split; [by constructor|]. intros _. by eexists.
  - split; [done|]. split; [by constructor|]. intros _. by eexists.
  - rewrite current_branch_head_run.
    unfold Repo_commit, BundleMaker_make_bundle, BundleMaker_make_diff_bundle,
      bind, emit, ret, raise, lift_result.
    split; [|split; [|discriminate]].
    + repeat (case_match; simpl in *; simplify_eq); done.
    + repeat (case_match; simpl in *; simplify_eq); by repeat constructor.
Qed.

(** No clone, no bundle. *)
Lemma make_bundle_only_reads_witness :
  ∃ e, outcome (make_bundle (PolicyBundle := SampleBundle) sample_fetcher None Absent)
       = Raise e.
Proof.
  exact (proj2 (proj2 (make_bundle_only_reads (H := sample_builder) sample_fetcher None
                         Absent)) eq_refl).
Defined.

(** ** Paths *)

(** Two fetchers work in the same clone directory exactly when they lock
    the same file, whatever their base directories; sources with the same
    url under one base directory share both, whatever their branches; and
    no lock file is the clone directory of any source. *)
Theorem lock_follows_clone_path (sha256_hexdigest : string → string)
    base1 source1 base2 source2 :
  (repo_clone_path sha256_hexdigest base1 source1
   = repo_clone_path sha256_hexdigest base2 source2
   ↔ _get_repo_lock sha256_hexdigest base1 source1
     = _get_repo_lock sha256_hexdigest base2 source2)
  ∧ (base1 = base2 → url source1 = url source2 →
     repo_clone_path sha256_hexdigest base1 source1
     = repo_clone_path sha256_hexdigest base2 source2)
  ∧ _get_repo_lock sha256_hexdigest base1 source1
    ≠ repo_clone_path sha256_hexdigest base2 source2.
Proof.
  unfold repo_clone_path, _get_repo_lock, init_base_dir, base_dir, source_id, path_join.
  split; [|split].
  - split.
    + intros [[Hbase _]%app_inj_tail Hid]%app_inj_tail. by rewrite Hbase, Hid.
    + intros [[[Hbase _]%app_inj_tail _]%app_inj_tail Hid]%app_inj_tail.
      by rewrite Hbase, Hid.
  - by intros -> ->.
  - intros [[_ Hne]%app_inj_tail _]%app_inj_tail. discriminate.
Qed.

(** Two sources with one url and different branches. *)
Lemma lock_follows_clone_path_witness :
  let other := {| url := origin_url; branch := "dev"; directories := ["."];
                  extensions := None; manifest := ".manifest"; bundle_ignore := None |} in
  repo_clone_path id ["srv"; "opal"] sample_source
  = repo_clone_path id ["srv"; "opal"] other.
Proof.
  intros other.
  exact (proj1 (proj2 (lock_follows_clone_path id ["srv"; "opal"] sample_source
                         ["srv"; "opal"] other)) eq_refl eq_refl).
Defined.
